(** * GetAttributes request and response payloads (PyKMIP)

    A shallow embedding of [kmip/core/messages/payloads/get_attributes.py]:
    the two payload classes with their setters, getters, [read], [write]
    and [__eq__], over a model of the collaborators they call (byte
    streams, the framed structure header, the text scalar codec and the
    attribute structure). *)

From Stdlib Require Import ZArith List String Ascii Lia Bool.
From Stdlib Require Import Strings.Byte DecimalString.
From stdpp Require Import base gmap strings list.

Local Open Scope string_scope.
Local Open Scope list_scope.

Set Warnings "-register-all".

(** ** Exceptions *)

(** The exception classes the payload code raises, by their Python names.
    The specification calls them [TypeFault] ([TypeError]),
    [MissingFieldFault] ([exceptions.InvalidField]) and
    [MalformedEncodingFault] ([exceptions.InvalidKmipEncoding]).
    [CodecError] stands for whatever a collaborating codec raises on a
    header it cannot read or a length it cannot write.  [LoopExhausted] is
    not a Python exception: it marks a run of a [while] loop that does not
    end.  The loop over names never gives it, and the loop over attributes
    gives it only when a decode takes no byte off the stream. *)
Inductive exception : Type :=
| TypeError (msg : string)
| InvalidField (msg : string)
| InvalidKmipEncoding (msg : string)
| CodecError (msg : string)
| LoopExhausted.

(** ** A state and exception monad

    A method call mutates the objects it is given and either returns or
    raises; the mutations made before a [raise] stay. *)

Definition M (S A : Type) : Type := S -> (exception + A) * S.

Definition ret {S A : Type} (a : A) : M S A := fun s => (inr a, s).

Definition raise {S A : Type} (e : exception) : M S A := fun s => (inl e, s).

Definition bind {S A B : Type} (m : M S A) (k : A -> M S B) : M S B :=
  fun s =>
    match m s with
    | (inr a, s') => k a s'
    | (inl e, s') => (inl e, s')
    end.

Definition get {S : Type} : M S S := fun s => (inr s, s).

Definition put {S : Type} (s : S) : M S unit := fun _ => (inr tt, s).

Definition modify {S : Type} (f : S -> S) : M S unit := fun s => (inr tt, f s).

Declare Scope monad_scope.
Delimit Scope monad_scope with monad.
Bind Scope monad_scope with M.

Notation "x <- m ;; k" := (bind m (fun x => k))
  (at level 100, m at next level, k at level 200, right associativity) : monad_scope.
Notation "m ;; k" := (bind m (fun _ => k))
  (at level 100, k at level 200, right associativity) : monad_scope.

Local Open Scope monad_scope.

(** A method call [obj.m(stream)] acts on the pair of its receiver and the
    stream; [on_self] and [on_stream] run an action on one of the two. *)
Definition on_self {S T A : Type} (m : M S A) : M (S * T) A :=
  fun st =>
    match m (fst st) with
    | (r, s') => (r, (s', snd st))
    end.

Definition on_stream {S T A : Type} (m : M T A) : M (S * T) A :=
  fun st =>
    match m (snd st) with
    | (r, t') => (r, (fst st, t'))
    end.

(** [run_on m t] runs [m] on a local object [t] of the method and returns
    its result together with the object's new state; when [m] raises, the
    local object is lost with the frame. *)
Definition run_on {S T A : Type} (m : M T A) (t : T) : M S (A * T) :=
  fun s =>
    match m t with
    | (inr a, t') => (inr (a, t'), s)
    | (inl e, _) => (inl e, s)
    end.

(** ** Byte streams ([utils.BytearrayStream]) *)

(** Modelled from the spec: [utils.BytearrayStream], the byte cursor of
    section 4.1, is not part of the payload file.  A stream is its buffer
    of unread bytes: [read] takes bytes off the front (fewer than asked
    when the buffer is short), [peek] looks at them without taking them,
    [write] appends. *)
Definition BytearrayStream : Type := list byte.

Definition stream_read (n : nat) : M BytearrayStream (list byte) :=
  fun s => (inr (take n s), drop n s).

Definition stream_peek (n : nat) (s : BytearrayStream) : list byte := take n s.

Definition stream_write (bs : list byte) : M BytearrayStream unit :=
  fun s => (inr tt, s ++ bs).

Definition stream_length (s : BytearrayStream) : Z := Z.of_nat (length s).

(** Big-endian integers, as [struct.pack('!I', n)] and [struct.unpack]
    give them, on [k] bytes. *)
Definition byte_of_Z (z : Z) : byte :=
  default "000"%byte (Byte.of_N (Z.to_N (z mod 256))).

Definition Z_of_byte (b : byte) : Z := Z.of_N (Byte.to_N b).

Fixpoint pack_be (k : nat) (z : Z) : list byte :=
  match k with
  | O => []
  | S k' => pack_be k' (z / 256) ++ [byte_of_Z z]
  end.

Definition unpack_be (bs : list byte) : Z :=
  fold_left (fun acc b => (acc * 256 + Z_of_byte b)%Z) bs 0%Z.

(** ** Tags and types ([enums]) *)

(** Modelled from the spec: the tag registry ([kmip/core/enums.py]) is an
    external collaborator; the tags the payloads and their fields use are given the
    values of the KMIP standard, and so are the two wire types. *)
Inductive Tags : Type :=
| ATTRIBUTE
| ATTRIBUTE_NAME
| ATTRIBUTE_VALUE
| REQUEST_PAYLOAD
| RESPONSE_PAYLOAD
| UNIQUE_IDENTIFIER.

Definition Tags_value (t : Tags) : Z :=
  match t with
  | ATTRIBUTE => 0x420008
  | ATTRIBUTE_NAME => 0x42000A
  | ATTRIBUTE_VALUE => 0x42000B
  | REQUEST_PAYLOAD => 0x420079
  | RESPONSE_PAYLOAD => 0x42007C
  | UNIQUE_IDENTIFIER => 0x420094
  end%Z.

#[global] Instance Tags_eq_dec : EqDecision Tags.
Proof. solve_decision. Defined.

Inductive Types : Type :=
| STRUCTURE
| TEXT_STRING.

Definition Types_value (t : Types) : Z :=
  match t with
  | STRUCTURE => 0x01
  | TEXT_STRING => 0x07
  end%Z.

(** ** The framed structure header ([primitives.Base], [primitives.Struct]) *)

Definition TAG_SIZE : nat := 3.
Definition TYPE_SIZE : nat := 1.
Definition LENGTH_SIZE : nat := 4.

(** Modelled from the spec: [primitives.Base] is not part of the payload
    file.  Section 6 gives the layout [tag:3][type:1][length:4][body];
    [Base_read] reads the three header fields and returns the declared
    length, failing when one is cut short or the tag or type is not the
    one the object expects. *)
Definition read_tag (tag : Tags) : M BytearrayStream unit :=
  tts <- stream_read TAG_SIZE ;;
  if negb (length tts =? TAG_SIZE)%nat then raise (CodecError "tag: truncated")
  else if negb (unpack_be tts =? Tags_value tag)%Z then raise (CodecError "tag: mismatch")
  else ret tt.

Definition read_type (type : Types) : M BytearrayStream unit :=
  tts <- stream_read TYPE_SIZE ;;
  if negb (length tts =? TYPE_SIZE)%nat then raise (CodecError "type: truncated")
  else if negb (unpack_be tts =? Types_value type)%Z then raise (CodecError "type: mismatch")
  else ret tt.

Definition read_length : M BytearrayStream Z :=
  lst <- stream_read LENGTH_SIZE ;;
  if negb (length lst =? LENGTH_SIZE)%nat then raise (CodecError "length: truncated")
  else ret (unpack_be lst).

Definition Base_read (tag : Tags) (type : Types) : M BytearrayStream Z :=
  read_tag tag ;;
  read_type type ;;
  read_length.

(** Modelled from the spec: [Base.write] writes tag, wire type and length
    in that order (section 4.1); a length that does not fit the four
    length bytes cannot be written. *)
Definition write_tag (tag : Tags) : M BytearrayStream unit :=
  stream_write (pack_be TAG_SIZE (Tags_value tag)).

Definition write_type (type : Types) : M BytearrayStream unit :=
  stream_write (pack_be TYPE_SIZE (Types_value type)).

Definition write_length (len : Z) : M BytearrayStream unit :=
  if ((0 <=? len) && (len <? 2 ^ 32))%Z then stream_write (pack_be LENGTH_SIZE len)
  else raise (CodecError "length: out of range").

Definition Base_write (tag : Tags) (type : Types) (len : Z) : M BytearrayStream unit :=
  write_tag tag ;;
  write_type type ;;
  write_length len.

(** Modelled from the spec: [Base.is_tag_next], the [peek_tag] of section
    4.1: a lookahead at the next three bytes that consumes nothing. *)
Definition is_tag_next (tag : Tags) (stream : BytearrayStream) : bool :=
  let next_tag := stream_peek TAG_SIZE stream in
  if negb (length next_tag =? TAG_SIZE)%nat then false
  else (unpack_be next_tag =? Tags_value tag)%Z.

(** Modelled from the spec: [Base.is_oversized], the
    [check_fully_consumed] of section 4.1: bytes left in the bounded
    stream are a malformed encoding (section 7, "oversized"). *)
Definition is_oversized {S : Type} (stream : BytearrayStream) : M S unit :=
  let extra := length stream in
  if (0 <? extra)%nat then raise (InvalidKmipEncoding "oversized")
  else ret tt.

(** ** The text scalar ([primitives.TextString]) *)

Module TextString.

(** Modelled from the spec: [primitives.TextString], the scalar field
    codec of section 2, is not part of the payload file.  A text scalar
    carries its tag and its string; on the wire it is laid out as section
    6 lays out every field: the header, then exactly [length] bytes, one
    per character (no alignment padding is modelled).  [read] returns the
    scalar as read; when it raises, the scalar it was called on is left
    as constructed. *)
Record t : Type := { tag : Tags; value : string }.

Definition __init__ (value : option string) (tag : Tags) : t :=
  {| tag := tag; value := default EmptyString value |}.

Definition read (self : t) : M BytearrayStream t :=
  len <- Base_read (tag self) TEXT_STRING ;;
  bs <- stream_read (Z.to_nat len) ;;
  if negb (length bs =? Z.to_nat len)%nat then raise (CodecError "value: truncated")
  else ret {| tag := tag self; value := string_of_list_byte bs |}.

Definition write (self : t) : M BytearrayStream unit :=
  Base_write (tag self) TEXT_STRING (Z.of_nat (String.length (value self))) ;;
  stream_write (list_byte_of_string (value self)).

End TextString.

(** [for x in xs: x.write(stream)] *)
Fixpoint write_each {A : Type} (write : A -> M BytearrayStream unit) (xs : list A)
  : M BytearrayStream unit :=
  match xs with
  | [] => ret tt
  | x :: xs' => write x ;; write_each write xs'
  end.

(** ** The attribute structure ([objects.Attribute]) *)

(** Modelled from the spec: [objects.Attribute], the Attribute Value of
    section 2, is not part of the payload file; section 6 gives the
    interface the payloads consume: [encode() -> bytes], [decode(cursor)]
    and an equality operator.  The payloads are stated over any such
    codec.  A decode moves the cursor forward: it gives the attribute and
    the number of bytes it took off the front of the stream. *)
Class AttributeCodec : Type := {
  Attribute : Type;
  Attribute_encode : Attribute -> exception + list byte;
  Attribute_decode : BytearrayStream -> exception + (Attribute * nat);
  Attribute_eq : Attribute -> Attribute -> bool;
}.

(** [attribute.write(stream)] and [attribute.read(stream)] on a fresh
    [objects.Attribute()]. *)
Definition Attribute_write `{AttributeCodec} (a : Attribute) : M BytearrayStream unit :=
  match Attribute_encode a with
  | inr bs => stream_write bs
  | inl e => raise e
  end.

Definition Attribute_read `{AttributeCodec} : M BytearrayStream Attribute :=
  fun stream =>
    match Attribute_decode stream with
    | inr (a, n) => (inr a, drop n stream)
    | inl e => (inl e, stream)
    end.

(** What the round trip of the response payload relies on: an encoded
    attribute starts with the [ATTRIBUTE] tag and is read back, from the
    front of any stream, as an attribute equal to the one encoded. *)
Record AttributeCodecLaws `{AttributeCodec} : Prop := {
  Attribute_tagged : forall a bs rest,
    Attribute_encode a = inr bs -> is_tag_next ATTRIBUTE (bs ++ rest) = true;
  Attribute_round_trip : forall a bs rest,
    Attribute_encode a = inr bs ->
    exists a', Attribute_read (bs ++ rest) = (inr a', rest) /\ Attribute_eq a' a = true;
}.

(** A codec to run the payloads on: an attribute whose value is a text
    string, framed as a structure of two text scalars. *)
Record TextAttribute : Type := { attribute_name : string; attribute_value : string }.

Definition TextAttribute_encode (a : TextAttribute) : exception + list byte :=
  let fields :=
    TextString.write (TextString.__init__ (Some (attribute_name a)) ATTRIBUTE_NAME) ;;
    TextString.write (TextString.__init__ (Some (attribute_value a)) ATTRIBUTE_VALUE) in
  match fields [] with
  | (inl e, _) => inl e
  | (inr _, body) =>
      match (Base_write ATTRIBUTE STRUCTURE (stream_length body) ;; stream_write body) [] with
      | (inl e, _) => inl e
      | (inr _, bs) => inr bs
      end
  end.

Definition TextAttribute_read : M BytearrayStream TextAttribute :=
  len <- Base_read ATTRIBUTE STRUCTURE ;;
  tstream <- stream_read (Z.to_nat len) ;;
  r <- run_on (name <- TextString.read (TextString.__init__ None ATTRIBUTE_NAME) ;;
               val <- TextString.read (TextString.__init__ None ATTRIBUTE_VALUE) ;;
               ret (name, val)) tstream ;;
  is_oversized (snd r) ;;
  ret {| attribute_name := TextString.value (fst (fst r));
         attribute_value := TextString.value (snd (fst r)) |}.

Definition TextAttribute_decode (stream : BytearrayStream)
  : exception + (TextAttribute * nat) :=
  match TextAttribute_read stream with
  | (inr a, stream') => inr (a, (length stream - length stream')%nat)
  | (inl e, _) => inl e
  end.

Definition TextAttribute_eq (a b : TextAttribute) : bool :=
  bool_decide (attribute_name a = attribute_name b)
  && bool_decide (attribute_value a = attribute_value b).

Definition TextAttributeCodec : AttributeCodec :=
  {| Attribute := TextAttribute;
     Attribute_encode := TextAttribute_encode;
     Attribute_decode := TextAttribute_decode;
     Attribute_eq := TextAttribute_eq |}.

(** ** Python values handed to the setters *)

(** The arguments a caller can pass: the setters tell them apart with
    [is None] and [isinstance], and print [type(x)] in their messages. *)
Inductive PyValue `{AttributeCodec} : Type :=
| PyNone
| PyInt (z : Z)
| PyStr (s : string)
| PyList (l : list PyValue)
| PyAttribute (a : Attribute).

Definition type `{AttributeCodec} (v : PyValue) : string :=
  match v with
  | PyNone => "<class 'NoneType'>"
  | PyInt _ => "<class 'int'>"
  | PyStr _ => "<class 'str'>"
  | PyList _ => "<class 'list'>"
  | PyAttribute _ => "<class 'kmip.core.objects.Attribute'>"
  end.

(** ["{0}".format(n)] for a natural number. *)
Definition format_nat (n : nat) : string :=
  DecimalString.NilZero.string_of_uint (Nat.to_uint n).

(** ** GetAttributesRequestPayload *)

Module GetAttributesRequestPayload.

(** The instance attributes: [length] of [primitives.Base] ([None] until
    a [read] or [write] sets it), [_uid] and [_attribute_names].  The tag
    is [REQUEST_PAYLOAD] for every instance. *)
Record t : Type := {
  length : option Z;
  _uid : option TextString.t;
  _attribute_names : list TextString.t;
}.

Definition set_length (v : option Z) (self : t) : t :=
  {| length := v; _uid := _uid self; _attribute_names := _attribute_names self |}.

Definition set__uid (v : option TextString.t) (self : t) : t :=
  {| length := length self; _uid := v; _attribute_names := _attribute_names self |}.

Definition set__attribute_names (v : list TextString.t) (self : t) : t :=
  {| length := length self; _uid := _uid self; _attribute_names := v |}.

(** The [uid] property (lines 60-77): the getter gives the string of the
    stored scalar, or [None]; the setter takes [None] or a string. *)
Definition uid (self : t) : option string :=
  match _uid self with
  | Some u => Some (TextString.value u)
  | None => None
  end.

Definition uid_setter `{AttributeCodec} (value : PyValue) : M t unit :=
  match value with
  | PyNone => modify (set__uid None)
  | PyStr s => modify (set__uid (Some (TextString.__init__ (Some s) UNIQUE_IDENTIFIER)))
  | _ => raise (TypeError "uid must be a string")
  end.

(** The [attribute_names] property (lines 79-113): the getter gives the
    strings of the stored scalars. *)
Definition attribute_names (self : t) : list string :=
  match _attribute_names self with
  | [] => []
  | _ :: _ => map TextString.value (_attribute_names self)
  end.

Definition item_message (i : nat) (ty : string) : string :=
  "attribute_names must be a list of strings; item " ++ format_nat i
    ++ " has type " ++ ty.

(** The first loop of the setter: [value[i:]] is still to visit and
    [names] holds the names kept so far. *)
Fixpoint collect_names `{AttributeCodec} (value : list PyValue) (i : nat) (names : list string)
  : exception + list string :=
  match value with
  | [] => inr names
  | name :: value' =>
      match name with
      | PyStr s =>
          collect_names value' (S i)
            (if bool_decide (s ∈ names) then names else names ++ [s])
      | _ => inl (TypeError (item_message (i + 1) (type name)))
      end
  end.

Definition attribute_names_setter `{AttributeCodec} (value : PyValue) : M t unit :=
  match value with
  | PyNone => modify (set__attribute_names [])
  | PyList l =>
      match collect_names l 0 [] with
      | inl e => raise e
      | inr names =>
          modify (set__attribute_names
                    (map (fun name => TextString.__init__ (Some name) ATTRIBUTE_NAME) names))
      end
  | _ => raise (TypeError "attribute_names must be a list of strings")
  end.

(** The constructor (lines 39-58): the instance exists for the caller
    only when both setters return. *)
Definition __init__ `{AttributeCodec} (uid attribute_names : PyValue) : exception + t :=
  let self := {| length := None; _uid := None; _attribute_names := [] |} in
  match (uid_setter uid ;; attribute_names_setter attribute_names) self with
  | (inr _, self') => inr self'
  | (inl e, _) => inl e
  end.

(** The [while] loop of [read] (lines 133-137), with the number of rounds
    it may still take. *)
Fixpoint read_names (fuel : nat) (names : list TextString.t)
  : M BytearrayStream (list TextString.t) :=
  fun tstream =>
    if is_tag_next ATTRIBUTE_NAME tstream then
      match fuel with
      | O => (inl LoopExhausted, tstream)
      | S fuel' =>
          (name <- TextString.read (TextString.__init__ None ATTRIBUTE_NAME) ;;
           read_names fuel' (names ++ [name])) tstream
      end
    else (inr names, tstream).

(** [read] (lines 115-140), on the payload and the input stream.  The
    loop is given the length of the bounded stream as its budget: every
    name read takes at least its header off it. *)
Definition read : M (t * BytearrayStream) unit :=
  len <- on_stream (Base_read REQUEST_PAYLOAD STRUCTURE) ;;
  on_self (modify (set_length (Some len))) ;;
  tstream <- on_stream (stream_read (Z.to_nat len)) ;;
  tstream <-
    (if is_tag_next UNIQUE_IDENTIFIER tstream then
       let fresh := TextString.__init__ None UNIQUE_IDENTIFIER in
       on_self (modify (set__uid (Some fresh))) ;;
       r <- run_on (TextString.read fresh) tstream ;;
       on_self (modify (set__uid (Some (fst r)))) ;;
       ret (snd r)
     else
       on_self (modify (set__uid None)) ;;
       ret tstream) ;;
  r <- run_on (read_names (List.length tstream) []) tstream ;;
  on_self (modify (set__attribute_names (fst r))) ;;
  is_oversized (snd r).

(** [write] (lines 142-161), on the payload and the output stream. *)
Definition write : M (t * BytearrayStream) unit :=
  self <- on_self get ;;
  r <- run_on
         ((match _uid self with
           | Some u => TextString.write u
           | None => ret tt
           end) ;;
          write_each TextString.write (_attribute_names self)) [] ;;
  let tstream : BytearrayStream := snd r in
  on_self (modify (set_length (Some (stream_length tstream)))) ;;
  on_stream (Base_write REQUEST_PAYLOAD STRUCTURE (stream_length tstream)) ;;
  on_stream (stream_write tstream).

(** [__eq__] (lines 177-187) against another request payload: equal
    identifiers and equal sets of names. *)
Definition __eq__ (self other : t) : bool :=
  if bool_decide (uid self = uid other) then
    if bool_decide (list_to_set (attribute_names self)
                    =@{gset string} list_to_set (attribute_names other))
    then true
    else false
  else false.

Definition __ne__ (self other : t) : bool := negb (__eq__ self other).

End GetAttributesRequestPayload.

(** ** GetAttributesResponsePayload *)

Module GetAttributesResponsePayload.

(** The instance attributes: [length] of [primitives.Base], [_uid] and
    [_attributes].  The tag is [RESPONSE_PAYLOAD] for every instance. *)
Record t `{AttributeCodec} : Type := {
  length : option Z;
  _uid : option TextString.t;
  _attributes : list Attribute;
}.

Definition set_length `{AttributeCodec} (v : option Z) (self : t) : t :=
  {| length := v; _uid := _uid self; _attributes := _attributes self |}.

Definition set__uid `{AttributeCodec} (v : option TextString.t) (self : t) : t :=
  {| length := length self; _uid := v; _attributes := _attributes self |}.

Definition set__attributes `{AttributeCodec} (v : list Attribute) (self : t) : t :=
  {| length := length self; _uid := _uid self; _attributes := v |}.

(** The [uid] property. *)
Definition uid `{AttributeCodec} (self : t) : option string :=
  match _uid self with
  | Some u => Some (TextString.value u)
  | None => None
  end.

Definition uid_setter `{AttributeCodec} (value : PyValue) : M t unit :=
  match value with
  | PyNone => modify (set__uid None)
  | PyStr s => modify (set__uid (Some (TextString.__init__ (Some s) UNIQUE_IDENTIFIER)))
  | _ => raise (TypeError "uid must be a string")
  end.

(** The [attributes] property (lines 249-267).  The setter keeps the list
    it is given. *)
Definition attributes `{AttributeCodec} (self : t) : list Attribute := _attributes self.

Definition item_message (i : nat) (ty : string) : string :=
  "attributes must be a list of attribute objects; item " ++ format_nat i
    ++ " has type " ++ ty.

(** The loop of the setter over [value[i:]]; a list that passes is a list
    of attributes. *)
Fixpoint check_attributes `{AttributeCodec} (value : list PyValue) (i : nat)
  : exception + list Attribute :=
  match value with
  | [] => inr []
  | attribute :: value' =>
      match attribute with
      | PyAttribute a =>
          match check_attributes value' (S i) with
          | inr l => inr (a :: l)
          | inl e => inl e
          end
      | _ => inl (TypeError (item_message (i + 1) (type attribute)))
      end
  end.

Definition attributes_setter `{AttributeCodec} (value : PyValue) : M t unit :=
  match value with
  | PyNone => modify (set__attributes [])
  | PyList l =>
      match check_attributes l 0 with
      | inl e => raise e
      | inr attrs => modify (set__attributes attrs)
      end
  | _ => raise (TypeError "attributes must be a list of attribute objects")
  end.

(** The constructor (lines 210-228). *)
Definition __init__ `{AttributeCodec} (uid attributes : PyValue) : exception + t :=
  let self := {| length := None; _uid := None; _attributes := [] |} in
  match (uid_setter uid ;; attributes_setter attributes) self with
  | (inr _, self') => inr self'
  | (inl e, _) => inl e
  end.

(** The [while] loop of [read] (lines 291-294), with the number of
    rounds it may still take; each round appends to [self._attributes]. *)
Fixpoint read_attributes `{AttributeCodec} (fuel : nat) (tstream : BytearrayStream)
  : M t BytearrayStream :=
  if is_tag_next ATTRIBUTE tstream then
    match fuel with
    | O => raise LoopExhausted
    | S fuel' =>
        r <- run_on Attribute_read tstream ;;
        modify (fun self => set__attributes (_attributes self ++ [fst r]) self) ;;
        read_attributes fuel' (snd r)
    end
  else ret tstream.

(** [read] (lines 269-296).  The identifier is read into a local scalar
    and stored through the [uid] setter. *)
Definition read `{AttributeCodec} : M (t * BytearrayStream) unit :=
  len <- on_stream (Base_read RESPONSE_PAYLOAD STRUCTURE) ;;
  on_self (modify (set_length (Some len))) ;;
  tstream <- on_stream (stream_read (Z.to_nat len)) ;;
  tstream <-
    (if is_tag_next UNIQUE_IDENTIFIER tstream then
       r <- run_on (TextString.read (TextString.__init__ None UNIQUE_IDENTIFIER)) tstream ;;
       on_self (uid_setter (PyStr (TextString.value (fst r)))) ;;
       ret (snd r)
     else
       raise (InvalidKmipEncoding "expected GetAttributes response uid not found")) ;;
  on_self (modify (set__attributes [])) ;;
  tstream <- on_self (read_attributes (List.length tstream) tstream) ;;
  is_oversized tstream.

(** [write] (lines 298-321). *)
Definition write `{AttributeCodec} : M (t * BytearrayStream) unit :=
  self <- on_self get ;;
  r <- run_on
         ((match _uid self with
           | Some u => TextString.write u
           | None => raise (InvalidField "The GetAttributes response uid is required.")
           end) ;;
          write_each Attribute_write (_attributes self)) [] ;;
  let tstream : BytearrayStream := snd r in
  on_self (modify (set_length (Some (stream_length tstream)))) ;;
  on_stream (Base_write RESPONSE_PAYLOAD STRUCTURE (stream_length tstream)) ;;
  on_stream (stream_write tstream).

(** The loop of [__eq__] over two lists of equal length: is there an
    index [i] with [self._attributes[i] != other._attributes[i]]? *)
Fixpoint attributes_differ `{AttributeCodec} (xs ys : list Attribute) : bool :=
  match xs, ys with
  | a :: xs', b :: ys' =>
      if negb (Attribute_eq a b) then true else attributes_differ xs' ys'
  | _, _ => false
  end.

(** [__eq__] (lines 331-344) against another response payload. *)
Definition __eq__ `{AttributeCodec} (self other : t) : bool :=
  if negb (bool_decide (uid self = uid other)) then false
  else if negb (List.length (_attributes self) =? List.length (_attributes other))%nat then false
  else if attributes_differ (_attributes self) (_attributes other) then false
  else true.

Definition __ne__ `{AttributeCodec} (self other : t) : bool := negb (__eq__ self other).

End GetAttributesResponsePayload.


(** ** Wire images and the vocabulary of the properties *)

Module Rq := GetAttributesRequestPayload.
Module Rs := GetAttributesResponsePayload.

(** The eight header bytes of a field. *)
Definition header_bytes (tag : Tags) (type : Types) (len : Z) : list byte :=
  pack_be TAG_SIZE (Tags_value tag) ++ pack_be TYPE_SIZE (Types_value type)
    ++ pack_be LENGTH_SIZE len.

(** The bytes of a text scalar, of an optional identifier and of a list of
    fields. *)
Definition TextString_bytes (ts : TextString.t) : list byte :=
  header_bytes (TextString.tag ts) TEXT_STRING
    (Z.of_nat (String.length (TextString.value ts)))
    ++ list_byte_of_string (TextString.value ts).

Definition uid_bytes (u : option TextString.t) : list byte :=
  match u with
  | Some ts => TextString_bytes ts
  | None => []
  end.

Definition names_bytes (names : list TextString.t) : list byte :=
  concat (map TextString_bytes names).

(** A text scalar whose length fits the four length bytes. *)
Definition fits (ts : TextString.t) : Prop :=
  (Z.of_nat (String.length (TextString.value ts)) < 2 ^ 32)%Z.

(** The scalars the request payload stores for an identifier and for a
    list of names. *)
Definition uid_scalar (uid : option string) : option TextString.t :=
  match uid with
  | Some s => Some (TextString.__init__ (Some s) UNIQUE_IDENTIFIER)
  | None => None
  end.

Definition name_scalars (names : list string) : list TextString.t :=
  map (fun name => TextString.__init__ (Some name) ATTRIBUTE_NAME) names.

(** An identifier argument of a constructor: a string or [None]. *)
Definition py_uid `{AttributeCodec} (uid : option string) : PyValue :=
  match uid with
  | Some s => PyStr s
  | None => PyNone
  end.

(** A freshly constructed payload, [GetAttributesRequestPayload()] and
    [GetAttributesResponsePayload()]. *)
Definition Rq_new : Rq.t :=
  {| Rq.length := None; Rq._uid := None; Rq._attribute_names := [] |}.

Definition Rs_new `{AttributeCodec} : Rs.t :=
  {| Rs.length := None; Rs._uid := None; Rs._attributes := [] |}.

(** Section 4.2 in words: "repeatedly peek for the tag and consume
    matching fields until the tag no longer matches".  [consumes tag rd s
    xs s'] says that from stream [s] the fields [xs] are consumed in this
    way by the reader [rd], leaving [s']. *)
Inductive consumes {A : Type} (tag : Tags) (rd : M BytearrayStream A)
  : BytearrayStream -> list A -> BytearrayStream -> Prop :=
| consumes_stop s :
    is_tag_next tag s = false -> consumes tag rd s [] s
| consumes_field s x s1 xs s2 :
    is_tag_next tag s = true ->
    rd s = (inr x, s1) ->
    consumes tag rd s1 xs s2 ->
    consumes tag rd s (x :: xs) s2.

(** The optional identifier of the request payload: consumed when its tag
    is next, absent otherwise. *)
Inductive consumes_uid : BytearrayStream -> option TextString.t -> BytearrayStream -> Prop :=
| consumes_uid_some s u s1 :
    is_tag_next UNIQUE_IDENTIFIER s = true ->
    TextString.read (TextString.__init__ None UNIQUE_IDENTIFIER) s = (inr u, s1) ->
    consumes_uid s (Some u) s1
| consumes_uid_none s :
    is_tag_next UNIQUE_IDENTIFIER s = false ->
    consumes_uid s None s.

Definition name_reader : M BytearrayStream TextString.t :=
  TextString.read (TextString.__init__ None ATTRIBUTE_NAME).

(** Section 3 in words: duplicates are collapsed "keeping first occurrence
    and its position": the element at index [i] stays exactly when it does
    not occur among the elements before it ([seen]). *)
Fixpoint keep_first_occurrences (seen l : list string) : list string :=
  match l with
  | [] => []
  | x :: l' =>
      if bool_decide (x ∈ seen) then keep_first_occurrences (seen ++ [x]) l'
      else x :: keep_first_occurrences (seen ++ [x]) l'
  end.

(** "The first offending element's zero-based position": the index and
    the value of the first element that is not a string. *)
Fixpoint first_non_string `{AttributeCodec} (l : list PyValue) : option (nat * PyValue) :=
  match l with
  | [] => None
  | v :: l' =>
      match v with
      | PyStr _ =>
          match first_non_string l' with
          | Some (i, w) => Some (S i, w)
          | None => None
          end
      | _ => Some (0%nat, v)
      end
  end.


(** The instance after [read] has stored the declared length and the
    identifier. *)
Definition Rq_with (len : Z) (u : option TextString.t) (self : Rq.t) : Rq.t :=
  Rq.set__uid u (Rq.set_length (Some len) self).

Definition Rs_with `{AttributeCodec} (len : Z) (u : option TextString.t) (self : Rs.t) : Rs.t :=
  Rs.set__uid u (Rs.set_length (Some len) self).

(** The body a request payload writes, and its whole wire image. *)
Definition Rq_body (self : Rq.t) : list byte :=
  uid_bytes (Rq._uid self) ++ names_bytes (Rq._attribute_names self).

Definition frame (tag : Tags) (body : list byte) : list byte :=
  header_bytes tag STRUCTURE (stream_length body) ++ body.

(** The scalars of an instance carry the tags the setters and [read] give
    them. *)
Definition Rq_tagged (self : Rq.t) : Prop :=
  match Rq._uid self with
  | Some u => TextString.tag u = UNIQUE_IDENTIFIER
  | None => True
  end
  /\ Forall (fun ts => TextString.tag ts = ATTRIBUTE_NAME) (Rq._attribute_names self).

(** The bytes a list of attributes encodes to, when all of them encode. *)
Fixpoint attributes_bytes `{AttributeCodec} (attrs : list Attribute) : option (list byte) :=
  match attrs with
  | [] => Some []
  | a :: attrs' =>
      match Attribute_encode a, attributes_bytes attrs' with
      | inr bs, Some rest => Some (bs ++ rest)
      | _, _ => None
      end
  end.


(** Two attributes of the text attribute codec, for the examples. *)
Definition attribute_one : @Attribute TextAttributeCodec :=
  Build_TextAttribute "x-one" "1".

Definition attribute_two : @Attribute TextAttributeCodec :=
  Build_TextAttribute "x-two" "2".

(** An identifier, and the wire images of a request and of a response
    payload that carry it followed by one more byte inside the declared
    length. *)
Definition sample_uid : TextString.t :=
  TextString.__init__ (Some "12345678") UNIQUE_IDENTIFIER.

Definition request_with_trailing_byte : list byte :=
  frame REQUEST_PAYLOAD (TextString_bytes sample_uid ++ [x00]).

Definition response_with_trailing_byte : list byte :=
  frame RESPONSE_PAYLOAD (TextString_bytes sample_uid ++ [x00]).

(** The index and the value of the first element of a list that is not
    an attribute: what the loop of the [attributes] setter stops at. *)
Fixpoint first_non_attribute `{AttributeCodec} (l : list PyValue) : option (nat * PyValue) :=
  match l with
  | [] => None
  | v :: l' =>
      match v with
      | PyAttribute _ =>
          match first_non_attribute l' with
          | Some (i, w) => Some (S i, w)
          | None => None
          end
      | _ => Some (0%nat, v)
      end
  end.

(** The identifier of a response payload carries the identifier tag. *)
Definition Rs_tagged `{AttributeCodec} (self : Rs.t) : Prop :=
  match Rs._uid self with
  | Some u => TextString.tag u = UNIQUE_IDENTIFIER
  | None => True
  end.

(** The body a response payload writes when its identifier is present and
    its attributes encode. *)
Definition Rs_body `{AttributeCodec} (self : Rs.t) : option (list byte) :=
  match Rs._uid self, attributes_bytes (Rs._attributes self) with
  | Some u, Some bs => Some (TextString_bytes u ++ bs)
  | _, _ => None
  end.

Arguments header_bytes : simpl never.
Arguments TextString_bytes : simpl never.
Arguments names_bytes : simpl never.
Arguments frame : simpl never.
Arguments stream_length : simpl never.
Arguments Rq_body : simpl never.

(** * Properties *)

(** ** Bytes and big-endian integers *)

Lemma Z_of_byte_range (b : byte) : (0 <= Z_of_byte b < 256)%Z.
Proof. unfold Z_of_byte. pose proof (Byte.to_N_bounded b). lia. Qed.

Lemma Z_of_byte_of_Z (z : Z) : Z_of_byte (byte_of_Z z) = (z mod 256)%Z.
Proof.
  unfold Z_of_byte, byte_of_Z.
  pose proof (Z.mod_pos_bound z 256 ltac:(lia)) as Hm.
  destruct (Byte.of_N (Z.to_N (z mod 256))) as [b|] eqn:E.
  - apply Byte.to_of_N in E. simpl. rewrite E. lia.
  - apply Byte.of_N_None_iff in E. lia.
Qed.

Lemma pack_be_length (k : nat) (z : Z) : length (pack_be k z) = k.
Proof.
  revert z. induction k as [|k IH]; intros z; simpl; [reflexivity|].
  rewrite length_app, IH. simpl. lia.
Qed.

Lemma unpack_be_snoc (bs : list byte) (b : byte) :
  unpack_be (bs ++ [b]) = (unpack_be bs * 256 + Z_of_byte b)%Z.
Proof. unfold unpack_be. rewrite fold_left_app. reflexivity. Qed.

Lemma unpack_pack_be (k : nat) (z : Z) :
  (0 <= z < 256 ^ Z.of_nat k)%Z -> unpack_be (pack_be k z) = z.
Proof.
  revert z. induction k as [|k IH]; intros z Hz.
  - simpl in *. unfold unpack_be. simpl. lia.
  - simpl pack_be. rewrite unpack_be_snoc, Z_of_byte_of_Z.
    rewrite IH.
    + pose proof (Z.div_mod z 256 ltac:(lia)). lia.
    + rewrite Nat2Z.inj_succ, Z.pow_succ_r in Hz by lia.
      split; [apply Z.div_pos; lia|].
      apply Z.div_lt_upper_bound; lia.
Qed.

Lemma Tags_value_range (t : Tags) : (0 <= Tags_value t < 256 ^ Z.of_nat TAG_SIZE)%Z.
Proof. change (256 ^ Z.of_nat TAG_SIZE)%Z with 16777216%Z. destruct t; simpl; lia. Qed.

Lemma Types_value_range (t : Types) : (0 <= Types_value t < 256 ^ Z.of_nat TYPE_SIZE)%Z.
Proof. change (256 ^ Z.of_nat TYPE_SIZE)%Z with 256%Z. destruct t; simpl; lia. Qed.

Lemma Tags_value_inj (t1 t2 : Tags) : Tags_value t1 = Tags_value t2 -> t1 = t2.
Proof. destruct t1, t2; simpl; intros H; try reflexivity; discriminate H. Qed.

Lemma length_list_byte_of_string (s : string) :
  length (list_byte_of_string s) = String.length s.
Proof.
  unfold list_byte_of_string. rewrite length_map.
  induction s as [|c s IH]; simpl; [reflexivity|]. rewrite IH. reflexivity.
Qed.

(** ** The header *)

Lemma stream_read_app (bs rest : list byte) (n : nat) :
  n = length bs -> stream_read n (bs ++ rest) = (inr bs, rest).
Proof.
  intros ->. unfold stream_read. rewrite take_app_length, drop_app_length. reflexivity.
Qed.

Lemma header_bytes_length (tag : Tags) (type : Types) (len : Z) :
  length (header_bytes tag type len) = 8%nat.
Proof. unfold header_bytes. rewrite !length_app, !pack_be_length. reflexivity. Qed.

Lemma read_tag_run (tag : Tags) (rest : list byte) :
  read_tag tag (pack_be TAG_SIZE (Tags_value tag) ++ rest) = (inr tt, rest).
Proof.
  unfold read_tag, bind.
  rewrite stream_read_app by (rewrite pack_be_length; reflexivity).
  rewrite pack_be_length, Nat.eqb_refl. simpl negb. cbv iota.
  rewrite unpack_pack_be by apply Tags_value_range. rewrite Z.eqb_refl. reflexivity.
Qed.

Lemma read_type_run (type : Types) (rest : list byte) :
  read_type type (pack_be TYPE_SIZE (Types_value type) ++ rest) = (inr tt, rest).
Proof.
  unfold read_type, bind.
  rewrite stream_read_app by (rewrite pack_be_length; reflexivity).
  rewrite pack_be_length, Nat.eqb_refl. simpl negb. cbv iota.
  rewrite unpack_pack_be by apply Types_value_range. rewrite Z.eqb_refl. reflexivity.
Qed.

Lemma read_length_run (len : Z) (rest : list byte) :
  (0 <= len < 2 ^ 32)%Z ->
  read_length (pack_be LENGTH_SIZE len ++ rest) = (inr len, rest).
Proof.
  intros Hlen. unfold read_length, bind.
  rewrite stream_read_app by (rewrite pack_be_length; reflexivity).
  rewrite pack_be_length, Nat.eqb_refl. simpl negb. cbv iota.
  rewrite unpack_pack_be by (change (256 ^ Z.of_nat LENGTH_SIZE)%Z with (2 ^ 32)%Z; lia).
  reflexivity.
Qed.

Lemma Base_read_header (tag : Tags) (type : Types) (len : Z) (rest : list byte) :
  (0 <= len < 2 ^ 32)%Z ->
  Base_read tag type (header_bytes tag type len ++ rest) = (inr len, rest).
Proof.
  intros Hlen. unfold Base_read, header_bytes, bind.
  rewrite <- !app_assoc.
  rewrite read_tag_run, read_type_run. apply read_length_run, Hlen.
Qed.

Lemma Base_write_run (tag : Tags) (type : Types) (len : Z) (s : BytearrayStream) :
  (0 <= len < 2 ^ 32)%Z ->
  Base_write tag type len s = (inr tt, s ++ header_bytes tag type len).
Proof.
  intros Hlen. unfold Base_write, write_tag, write_type, write_length, bind, stream_write.
  replace ((0 <=? len)%Z && (len <? 2 ^ 32)%Z) with true
    by (symmetry; apply andb_true_iff; split; [apply Z.leb_le|apply Z.ltb_lt]; lia).
  unfold header_bytes. rewrite <- !app_assoc. reflexivity.
Qed.

Lemma Base_write_inv (tag : Tags) (type : Types) (len : Z) (s s' : BytearrayStream) (r : unit) :
  Base_write tag type len s = (inr r, s') ->
  (0 <= len < 2 ^ 32)%Z /\ s' = s ++ header_bytes tag type len.
Proof.
  intros H.
  destruct (decide (0 <= len < 2 ^ 32)%Z) as [Hlen|Hlen].
  - rewrite Base_write_run in H by exact Hlen. split; [exact Hlen|congruence].
  - exfalso. revert H.
    unfold Base_write, write_tag, write_type, write_length, bind, stream_write.
    replace ((0 <=? len)%Z && (len <? 2 ^ 32)%Z) with false; [discriminate|].
    symmetry. apply andb_false_iff.
    destruct (Z.leb_spec 0 len); [right; apply Z.ltb_ge; lia|left; reflexivity].
Qed.

Ltac step_if :=
  match goal with
  | |- context [if negb ?c then _ else _] =>
      destruct c eqn:?; cbn [negb]; cbv beta iota; try discriminate
  end.

Lemma Base_read_consumes (tag : Tags) (type : Types) (s s' : BytearrayStream) (len : Z) :
  Base_read tag type s = (inr len, s') -> s' = drop 8 s /\ (8 <= length s)%nat.
Proof.
  unfold Base_read, read_tag, read_type, read_length, bind, stream_read, raise, ret.
  repeat step_if.
  intros H. injection H as _ <-.
  repeat match goal with H : (_ =? _)%nat = true |- _ => apply Nat.eqb_eq in H end.
  rewrite !length_take, !length_drop in *.
  unfold TAG_SIZE, TYPE_SIZE, LENGTH_SIZE in *.
  rewrite !drop_drop. split; [reflexivity|lia].
Qed.

Lemma Base_read_error (tag : Tags) (type : Types) (s s' : BytearrayStream) (e : exception) :
  Base_read tag type s = (inl e, s') -> exists msg, e = CodecError msg.
Proof.
  unfold Base_read, read_tag, read_type, read_length, bind, stream_read, raise, ret.
  repeat step_if; intros H; injection H as <- _; eexists; reflexivity.
Qed.

Lemma is_tag_next_header (tag' tag : Tags) (type : Types) (len : Z) (rest : list byte) :
  is_tag_next tag' (header_bytes tag type len ++ rest) = bool_decide (tag = tag').
Proof.
  unfold is_tag_next, stream_peek, header_bytes. rewrite <- !app_assoc.
  rewrite take_app_length' by (rewrite pack_be_length; reflexivity).
  rewrite pack_be_length, Nat.eqb_refl. simpl negb. cbv iota.
  rewrite unpack_pack_be by apply Tags_value_range.
  destruct (Z.eqb_spec (Tags_value tag) (Tags_value tag')) as [E|E].
  - apply Tags_value_inj in E. symmetry. apply bool_decide_eq_true. exact E.
  - symmetry. apply bool_decide_eq_false. intros ->. apply E. reflexivity.
Qed.

Lemma is_tag_next_nil (tag : Tags) : is_tag_next tag [] = false.
Proof. reflexivity. Qed.

Lemma is_tag_next_length (tag : Tags) (s : BytearrayStream) :
  is_tag_next tag s = true -> (3 <= length s)%nat.
Proof.
  unfold is_tag_next, stream_peek. rewrite length_take.
  destruct (_ =? TAG_SIZE)%nat eqn:E; simpl; [|discriminate].
  apply Nat.eqb_eq in E. unfold TAG_SIZE in E. lia.
Qed.

(** ** The text scalar *)

Lemma TextString_write_run (ts : TextString.t) (s : BytearrayStream) :
  fits ts -> TextString.write ts s = (inr tt, s ++ TextString_bytes ts).
Proof.
  intros Hf. unfold TextString.write, bind.
  rewrite Base_write_run by (unfold fits in Hf; lia).
  unfold stream_write, TextString_bytes. rewrite app_assoc. reflexivity.
Qed.

Lemma TextString_write_inv (ts : TextString.t) (s s' : BytearrayStream) (r : unit) :
  TextString.write ts s = (inr r, s') -> fits ts /\ s' = s ++ TextString_bytes ts.
Proof.
  unfold TextString.write, bind.
  destruct (Base_write _ _ _ s) as [[e|[]] s1] eqn:E; [discriminate|].
  apply Base_write_inv in E as [Hlen ->]. unfold stream_write. intros [= _ <-].
  split; [unfold fits; lia|].
  unfold TextString_bytes. rewrite app_assoc. reflexivity.
Qed.

Lemma TextString_read_bytes (self ts : TextString.t) (rest : list byte) :
  fits ts -> TextString.tag self = TextString.tag ts ->
  TextString.read self (TextString_bytes ts ++ rest) = (inr ts, rest).
Proof.
  intros Hf Htag. unfold TextString.read, TextString_bytes, bind.
  rewrite <- app_assoc, Htag.
  rewrite Base_read_header by (unfold fits in Hf; lia).
  rewrite Nat2Z.id.
  rewrite stream_read_app by (rewrite length_list_byte_of_string; reflexivity).
  rewrite length_list_byte_of_string, Nat.eqb_refl. simpl negb. cbv iota.
  rewrite string_of_list_byte_of_string. destruct ts; reflexivity.
Qed.

Lemma TextString_read_consumes (self ts : TextString.t) (s s' : BytearrayStream) :
  TextString.read self s = (inr ts, s') ->
  (length s' < length s)%nat /\ TextString.tag ts = TextString.tag self.
Proof.
  unfold TextString.read, bind.
  destruct (Base_read _ _ s) as [[e|len] s1] eqn:E; [discriminate|].
  apply Base_read_consumes in E as [-> Hlen].
  unfold stream_read. step_if. unfold ret. intros [= <- <-].
  rewrite !length_drop. simpl. split; [lia|reflexivity].
Qed.

Lemma TextString_read_error (self : TextString.t) (s s' : BytearrayStream) (e : exception) :
  TextString.read self s = (inl e, s') -> exists msg, e = CodecError msg.
Proof.
  unfold TextString.read, bind.
  destruct (Base_read _ _ s) as [[e1|len] s1] eqn:E.
  - intros [= <- <-]. eapply Base_read_error, E.
  - unfold stream_read. step_if. unfold raise. intros [= <- <-]. eexists; reflexivity.
Qed.

Lemma TextString_bytes_tagged (tag : Tags) (ts : TextString.t) (rest : list byte) :
  is_tag_next tag (TextString_bytes ts ++ rest) = bool_decide (TextString.tag ts = tag).
Proof. unfold TextString_bytes. rewrite <- app_assoc. apply is_tag_next_header. Qed.

(** ** The request payload: the loop over names *)

Lemma read_names_consumes (fuel : nat) (acc names : list TextString.t)
      (s s2 : BytearrayStream) :
  consumes ATTRIBUTE_NAME name_reader s names s2 ->
  (length s <= fuel)%nat ->
  Rq.read_names fuel acc s = (inr (acc ++ names), s2).
Proof.
  intros Hc. revert fuel acc.
  induction Hc as [s Hstop|s x s1 xs s2 Hnext Hrd Hc IH]; intros fuel acc Hfuel.
  - destruct fuel; simpl; rewrite Hstop, app_nil_r; reflexivity.
  - pose proof (is_tag_next_length _ _ Hnext) as Hlen.
    destruct fuel as [|fuel]; [lia|].
    simpl. rewrite Hnext. unfold bind. unfold name_reader in Hrd. rewrite Hrd.
    apply TextString_read_consumes in Hrd as [Hlt _].
    rewrite IH by lia. rewrite <- app_assoc. reflexivity.
Qed.

Lemma read_names_inv (fuel : nat) (acc names : list TextString.t)
      (s s2 : BytearrayStream) :
  Rq.read_names fuel acc s = (inr names, s2) ->
  exists l, names = acc ++ l /\ consumes ATTRIBUTE_NAME name_reader s l s2.
Proof.
  revert acc s. induction fuel as [|fuel IH]; intros acc s; simpl.
  - destruct (is_tag_next ATTRIBUTE_NAME s) eqn:Hnext; [discriminate|].
    intros [= <- <-]. exists []. rewrite app_nil_r. split; [reflexivity|].
    apply consumes_stop, Hnext.
  - destruct (is_tag_next ATTRIBUTE_NAME s) eqn:Hnext.
    + unfold bind.
      destruct (TextString.read _ s) as [[e|name] s1] eqn:Hrd; [discriminate|].
      intros H. apply IH in H as (l & -> & Hc).
      exists (name :: l). rewrite <- app_assoc. split; [reflexivity|].
      eapply consumes_field; eauto.
    + intros [= <- <-]. exists []. rewrite app_nil_r. split; [reflexivity|].
      apply consumes_stop, Hnext.
Qed.

(** The loop over names ends: with the length of the stream as its
    budget it never gives [LoopExhausted]. *)
Lemma read_names_error (fuel : nat) (acc : list TextString.t)
      (s s2 : BytearrayStream) (e : exception) :
  (length s <= fuel)%nat ->
  Rq.read_names fuel acc s = (inl e, s2) -> exists msg, e = CodecError msg.
Proof.
  revert acc s. induction fuel as [|fuel IH]; intros acc s Hfuel; simpl.
  - destruct (is_tag_next ATTRIBUTE_NAME s) eqn:Hnext; [|discriminate].
    apply is_tag_next_length in Hnext. lia.
  - destruct (is_tag_next ATTRIBUTE_NAME s) eqn:Hnext; [|discriminate].
    unfold bind.
    destruct (TextString.read _ s) as [[e1|name] s1] eqn:Hrd.
    + intros [= <- <-]. eapply TextString_read_error, Hrd.
    + apply TextString_read_consumes in Hrd as [Hlt _].
      apply IH. lia.
Qed.

(** The wire image of a list of names is consumed back name by name. *)
Lemma consumes_names_bytes (names : list TextString.t) (rest : list byte) :
  Forall (fun ts => fits ts /\ TextString.tag ts = ATTRIBUTE_NAME) names ->
  is_tag_next ATTRIBUTE_NAME rest = false ->
  consumes ATTRIBUTE_NAME name_reader (names_bytes names ++ rest) names rest.
Proof.
  intros Hall Hrest. induction Hall as [|ts names [Hf Htag] Hall IH].
  - simpl. apply consumes_stop, Hrest.
  - change (names_bytes (ts :: names)) with (TextString_bytes ts ++ names_bytes names).
    rewrite <- app_assoc.
    eapply consumes_field; [| |exact IH].
    + rewrite TextString_bytes_tagged. apply bool_decide_eq_true, Htag.
    + unfold name_reader. apply TextString_read_bytes; [exact Hf|]. rewrite Htag. reflexivity.
Qed.

Lemma consumes_uid_bytes (u : option TextString.t) (rest : list byte) :
  match u with
  | Some ts => fits ts /\ TextString.tag ts = UNIQUE_IDENTIFIER
  | None => is_tag_next UNIQUE_IDENTIFIER rest = false
  end ->
  consumes_uid (uid_bytes u ++ rest) u rest.
Proof.
  destruct u as [ts|]; cbn [uid_bytes app].
  - intros [Hf Htag]. apply consumes_uid_some.
    + rewrite TextString_bytes_tagged. apply bool_decide_eq_true, Htag.
    + apply TextString_read_bytes; [exact Hf|]. rewrite Htag. reflexivity.
  - intros H. apply consumes_uid_none, H.
Qed.

(** The relation is a function of the stream. *)
Lemma consumes_functional {A : Type} (tag : Tags) (rd : M BytearrayStream A)
      (s : BytearrayStream) (xs ys : list A) (s1 s2 : BytearrayStream) :
  consumes tag rd s xs s1 -> consumes tag rd s ys s2 -> xs = ys /\ s1 = s2.
Proof.
  intros H1. revert ys s2.
  induction H1 as [s Hstop|s x sa xs sb Hnext Hrd H1 IH]; intros ys s2 H2;
    inversion H2; subst; try congruence.
  - split; reflexivity.
  - match goal with H : rd s = (inr ?y, ?t) |- _ => rewrite Hrd in H; injection H as <- <- end.
    match goal with H : consumes _ _ sa _ _ |- _ => apply IH in H as [-> ->] end.
    split; reflexivity.
Qed.

Lemma consumes_uid_functional (s : BytearrayStream) (u v : option TextString.t)
      (s1 s2 : BytearrayStream) :
  consumes_uid s u s1 -> consumes_uid s v s2 -> u = v /\ s1 = s2.
Proof.
  intros H1 H2. inversion H1; subst; inversion H2; subst; try congruence.
  - match goal with
    | Ha : TextString.read _ s = _, Hb : TextString.read _ s = _ |- _ =>
        rewrite Ha in Hb; injection Hb as <- <-
    end.
    split; reflexivity.
  - split; reflexivity.
Qed.

(** ** The request payload: [read] step by step *)

Lemma Rq_read_header_error (self : Rq.t) (istream s' : BytearrayStream) (e : exception) :
  Base_read REQUEST_PAYLOAD STRUCTURE istream = (inl e, s') ->
  Rq.read (self, istream) = (inl e, (self, s')).
Proof.
  intros H. unfold Rq.read, bind, on_stream. cbn [fst snd]. rewrite H. reflexivity.
Qed.

Lemma Rq_read_fields (self : Rq.t) (istream rest s1 : BytearrayStream) (len : Z)
      (u : option TextString.t) :
  Base_read REQUEST_PAYLOAD STRUCTURE istream = (inr len, rest) ->
  consumes_uid (take (Z.to_nat len) rest) u s1 ->
  Rq.read (self, istream) =
    match Rq.read_names (length s1) [] s1 with
    | (inl e, _) => (inl e, (Rq_with len u self, drop (Z.to_nat len) rest))
    | (inr names, s2) =>
        (if (0 <? length s2)%nat then inl (InvalidKmipEncoding "oversized") else inr tt,
         (Rq.set__attribute_names names (Rq_with len u self), drop (Z.to_nat len) rest))
    end.
Proof.
  intros Hhdr Hu.
  unfold Rq.read, bind, on_stream, on_self, run_on, modify, stream_read, ret.
  cbn [fst snd]. rewrite Hhdr. cbn [fst snd].
  inversion Hu as [s u' s1' Hnext Hrd|s Hnext]; subst; rewrite Hnext.
  - rewrite Hrd. cbn [fst snd].
    destruct (Rq.read_names _ _ s1) as [[e|names] s2]; [reflexivity|].
    unfold is_oversized. cbn [fst snd]. destruct (0 <? length s2)%nat; reflexivity.
  - cbn [fst snd].
    destruct (Rq.read_names _ _ _) as [[e|names] s2]; [reflexivity|].
    unfold is_oversized. cbn [fst snd]. destruct (0 <? length s2)%nat; reflexivity.
Qed.

Lemma Rq_read_uid_error (self : Rq.t) (istream rest s1 : BytearrayStream) (len : Z)
      (e : exception) :
  Base_read REQUEST_PAYLOAD STRUCTURE istream = (inr len, rest) ->
  is_tag_next UNIQUE_IDENTIFIER (take (Z.to_nat len) rest) = true ->
  TextString.read (TextString.__init__ None UNIQUE_IDENTIFIER) (take (Z.to_nat len) rest)
    = (inl e, s1) ->
  Rq.read (self, istream) =
    (inl e, (Rq_with len (Some (TextString.__init__ None UNIQUE_IDENTIFIER)) self,
             drop (Z.to_nat len) rest)).
Proof.
  intros Hhdr Hnext Hrd.
  unfold Rq.read, bind, on_stream, on_self, run_on, modify, stream_read, ret.
  cbn [fst snd]. rewrite Hhdr. cbn [fst snd]. rewrite Hnext, Hrd. reflexivity.
Qed.

(** ** The request payload: [write] *)

Lemma write_names_run (names : list TextString.t) (s : BytearrayStream) :
  Forall fits names ->
  write_each TextString.write names s = (inr tt, s ++ names_bytes names).
Proof.
  intros Hall. revert s. induction Hall as [|ts names Hf Hall IH]; intros s.
  - simpl. unfold ret. rewrite app_nil_r. reflexivity.
  - simpl. unfold bind. rewrite TextString_write_run by exact Hf.
    rewrite IH.
    change (names_bytes (ts :: names)) with (TextString_bytes ts ++ names_bytes names).
    rewrite app_assoc. reflexivity.
Qed.

Lemma write_names_inv (names : list TextString.t) (s s' : BytearrayStream) (r : unit) :
  write_each TextString.write names s = (inr r, s') ->
  Forall fits names /\ s' = s ++ names_bytes names.
Proof.
  revert s. induction names as [|ts names IH]; intros s; simpl.
  - unfold ret. intros [= _ <-]. rewrite app_nil_r. split; [constructor|reflexivity].
  - unfold bind.
    destruct (TextString.write ts s) as [[e|[]] s1] eqn:E; [discriminate|].
    apply TextString_write_inv in E as [Hf ->].
    intros H. apply IH in H as [Hall ->].
    split; [constructor; assumption|].
    change (names_bytes (ts :: names)) with (TextString_bytes ts ++ names_bytes names).
    rewrite app_assoc. reflexivity.
Qed.


Lemma Rq_write_body (self : Rq.t) :
  match Rq._uid self with Some u => fits u | None => True end ->
  Forall fits (Rq._attribute_names self) ->
  ((match Rq._uid self with Some u => TextString.write u | None => ret tt end) ;;
   write_each TextString.write (Rq._attribute_names self))%monad []
  = (inr tt, Rq_body self).
Proof.
  intros Hu Hall. unfold bind, Rq_body. destruct (Rq._uid self) as [u|].
  - rewrite TextString_write_run by exact Hu.
    rewrite write_names_run by exact Hall. reflexivity.
  - unfold ret. rewrite write_names_run by exact Hall. reflexivity.
Qed.

Lemma Rq_write_body_inv (self : Rq.t) (r : unit) (body : BytearrayStream) :
  ((match Rq._uid self with Some u => TextString.write u | None => ret tt end) ;;
   write_each TextString.write (Rq._attribute_names self))%monad []
  = (inr r, body) ->
  match Rq._uid self with Some u => fits u | None => True end
  /\ Forall fits (Rq._attribute_names self) /\ body = Rq_body self.
Proof.
  unfold bind, Rq_body. destruct (Rq._uid self) as [u|].
  - destruct (TextString.write u []) as [[e|[]] s1] eqn:E1; [discriminate|].
    apply TextString_write_inv in E1 as [Hf ->].
    intros H. apply write_names_inv in H as [Hall ->]. auto.
  - unfold ret. intros H. apply write_names_inv in H as [Hall ->]. auto.
Qed.

Lemma Rq_write_inv (self self' : Rq.t) (ostream ostream' : BytearrayStream) (r : unit) :
  Rq.write (self, ostream) = (inr r, (self', ostream')) ->
  match Rq._uid self with Some u => fits u | None => True end
  /\ Forall fits (Rq._attribute_names self)
  /\ (stream_length (Rq_body self) < 2 ^ 32)%Z
  /\ self' = Rq.set_length (Some (stream_length (Rq_body self))) self
  /\ ostream' = ostream ++ frame REQUEST_PAYLOAD (Rq_body self).
Proof.
  unfold Rq.write. unfold bind at 1 2. unfold on_self at 1, get, run_on. cbn [fst snd].
  match goal with
  | |- context [bind ?a ?b []] => destruct (bind a b []) as [[e|[]] body] eqn:E
  end; [discriminate|].
  apply Rq_write_body_inv in E as (Hu & Hall & ->).
  unfold bind, on_self, on_stream, modify. cbn [fst snd].
  destruct (Base_write _ _ _ ostream) as [[e|[]] s3] eqn:E3; [discriminate|].
  apply Base_write_inv in E3 as [Hlen ->]. unfold stream_write.
  intros [= _ <- <-]. unfold frame.
  repeat split; try assumption; try lia. rewrite <- app_assoc. reflexivity.
Qed.

Lemma Rq_write_run (self : Rq.t) (ostream : BytearrayStream) :
  match Rq._uid self with Some u => fits u | None => True end ->
  Forall fits (Rq._attribute_names self) ->
  (stream_length (Rq_body self) < 2 ^ 32)%Z ->
  Rq.write (self, ostream) =
    (inr tt, (Rq.set_length (Some (stream_length (Rq_body self))) self,
              ostream ++ frame REQUEST_PAYLOAD (Rq_body self))).
Proof.
  intros Hu Hall Hlen.
  unfold Rq.write. unfold bind at 1 2. unfold on_self at 1, get, run_on. cbn [fst snd].
  rewrite Rq_write_body by assumption.
  unfold bind, on_self, on_stream, modify. cbn [fst snd].
  rewrite Base_write_run by (unfold stream_length in *; lia).
  unfold stream_write, frame. cbn [fst snd]. rewrite <- app_assoc. reflexivity.
Qed.

(** ** The request payload: setters and constructor *)

Lemma collect_names_strings `{AttributeCodec} (l : list string) (i : nat)
      (names seen : list string) :
  (forall x, x ∈ names <-> x ∈ seen) ->
  Rq.collect_names (map PyStr l) i names = inr (names ++ keep_first_occurrences seen l).
Proof.
  revert i names seen. induction l as [|x l IH]; intros i names seen Hseen; simpl.
  - rewrite app_nil_r. reflexivity.
  - destruct (decide (x ∈ names)) as [Hin|Hnin].
    + rewrite (bool_decide_eq_true_2 _ Hin).
      rewrite (bool_decide_eq_true_2 (x ∈ seen)) by (apply Hseen, Hin).
      apply IH. intros y. rewrite elem_of_app, list_elem_of_singleton, <- Hseen.
      split; [auto|]. intros [Hy| ->]; assumption.
    + rewrite (bool_decide_eq_false_2 _ Hnin).
      rewrite (bool_decide_eq_false_2 (x ∈ seen)) by (rewrite <- Hseen; exact Hnin).
      rewrite (IH _ _ (seen ++ [x])).
      * rewrite <- app_assoc. reflexivity.
      * intros y. rewrite !elem_of_app, Hseen. reflexivity.
Qed.

Lemma collect_names_offending `{AttributeCodec} (l : list PyValue) (k i : nat) (v : PyValue)
      (names : list string) :
  first_non_string l = Some (i, v) ->
  Rq.collect_names l k names = inl (TypeError (Rq.item_message (k + i + 1) (type v))).
Proof.
  revert k i names. induction l as [|w l IH]; intros k i names; simpl; [discriminate|].
  destruct w; try (intros [= <- <-]; rewrite Nat.add_0_r; reflexivity).
  destruct (first_non_string l) as [[j u]|]; [|discriminate].
  intros [= <- <-]. rewrite (IH (S k) j _ eq_refl). do 3 f_equal. lia.
Qed.

Lemma attribute_names_of_scalars (names : list string) (self : Rq.t) :
  Rq.attribute_names (Rq.set__attribute_names (name_scalars names) self) = names.
Proof.
  unfold Rq.attribute_names, name_scalars. simpl.
  destruct names as [|x names]; [reflexivity|].
  cbn [map]. rewrite map_map. simpl. f_equal. apply map_id.
Qed.

Lemma attribute_names_map (self : Rq.t) :
  Rq.attribute_names self = map TextString.value (Rq._attribute_names self).
Proof. unfold Rq.attribute_names. destruct (Rq._attribute_names self); reflexivity. Qed.

Lemma Rq_init_run `{AttributeCodec} (uid : option string) (l : list string) :
  Rq.__init__ (py_uid uid) (PyList (map PyStr l)) =
    inr {| Rq.length := None; Rq._uid := uid_scalar uid;
           Rq._attribute_names := name_scalars (keep_first_occurrences [] l) |}.
Proof.
  unfold Rq.__init__, bind, Rq.attribute_names_setter.
  rewrite (collect_names_strings l 0 [] []) by reflexivity.
  destruct uid; reflexivity.
Qed.

Lemma name_scalars_tagged (names : list string) :
  Forall (fun ts => TextString.tag ts = ATTRIBUTE_NAME) (name_scalars names).
Proof. unfold name_scalars. apply Forall_map, Forall_forall. intros; reflexivity. Qed.

(** The first-occurrence list has no duplicates and the elements of the
    input, in the order of the input. *)
Lemma keep_first_occurrences_elem (seen l : list string) (x : string) :
  x ∈ keep_first_occurrences seen l <-> x ∈ l /\ x ∉ seen.
Proof.
  revert seen. induction l as [|y l IH]; intros seen; simpl.
  - split; [intros H; inversion H|intros [H _]; inversion H].
  - destruct (decide (y ∈ seen)) as [Hin|Hnin].
    + rewrite (bool_decide_eq_true_2 _ Hin), IH, elem_of_cons, elem_of_app,
        list_elem_of_singleton.
      split.
      * intros [Hx Hn]. split; [right; exact Hx|]. intros Hs. apply Hn. left. exact Hs.
      * intros [[-> | Hx] Hn]; [contradiction|].
        split; [exact Hx|]. intros [Hs| ->]; contradiction.
    + rewrite (bool_decide_eq_false_2 _ Hnin), !elem_of_cons, IH, elem_of_app,
        list_elem_of_singleton.
      split.
      * intros [-> | [Hx Hn]]; [split; [left; reflexivity|exact Hnin]|].
        split; [right; exact Hx|]. intros Hs. apply Hn. left. exact Hs.
      * intros [[-> | Hx] Hn]; [left; reflexivity|].
        destruct (decide (x = y)) as [-> | Hne]; [left; reflexivity|].
        right. split; [exact Hx|]. intros [Hs| ->]; contradiction.
Qed.

Lemma keep_first_occurrences_NoDup (seen l : list string) :
  NoDup (keep_first_occurrences seen l).
Proof.
  revert seen. induction l as [|y l IH]; intros seen; simpl; [constructor|].
  destruct (bool_decide (y ∈ seen)); [apply IH|].
  constructor; [|apply IH].
  rewrite keep_first_occurrences_elem, elem_of_app, list_elem_of_singleton.
  intros [_ Hn]. apply Hn. right. reflexivity.
Qed.

Lemma keep_first_occurrences_sublist (seen l : list string) :
  sublist (keep_first_occurrences seen l) l.
Proof.
  revert seen. induction l as [|y l IH]; intros seen; simpl; [constructor|].
  destruct (bool_decide (y ∈ seen)); [apply sublist_cons, IH|apply sublist_skip, IH].
Qed.

(** ** The response payload: the loop over attributes *)

Lemma read_attributes_inv `{AttributeCodec} (fuel : nat) (s s2 : BytearrayStream)
      (self self' : Rs.t) :
  Rs.read_attributes fuel s self = (inr s2, self') ->
  exists l, consumes ATTRIBUTE Attribute_read s l s2
            /\ self' = Rs.set__attributes (Rs._attributes self ++ l) self.
Proof.
  revert s self. induction fuel as [|fuel IH]; intros s self; simpl.
  - destruct (is_tag_next ATTRIBUTE s) eqn:Hnext; [discriminate|].
    unfold ret. intros [= <- <-]. exists []. split; [apply consumes_stop, Hnext|].
    rewrite app_nil_r. destruct self; reflexivity.
  - destruct (is_tag_next ATTRIBUTE s) eqn:Hnext.
    + unfold bind, run_on, modify.
      destruct (Attribute_read s) as [[e|a] s1] eqn:Hrd; [discriminate|].
      cbn [fst snd]. intros Hloop. apply IH in Hloop as (l & Hc & ->).
      exists (a :: l). split; [eapply consumes_field; eauto|].
      cbn [Rs.set__attributes Rs._attributes]. rewrite <- app_assoc. reflexivity.
    + unfold ret. intros [= <- <-]. exists []. split; [apply consumes_stop, Hnext|].
      rewrite app_nil_r. destruct self; reflexivity.
Qed.

Lemma Attribute_read_shrinks `{AttributeCodec} (s s1 : BytearrayStream) (a : Attribute) :
  Attribute_read s = (inr a, s1) -> s1 = s \/ (length s1 < length s)%nat.
Proof.
  unfold Attribute_read. destruct (Attribute_decode s) as [e|[a' n]]; [discriminate|].
  intros [= _ <-]. destruct n as [|n]; [left; apply drop_0|].
  destruct s as [|b s]; [left; reflexivity|].
  right. rewrite length_drop. simpl. lia.
Qed.

(** A stream from which fields are consumed one after the other gets
    shorter with each of them: a field that took nothing would be read
    again for ever. *)
Lemma consumes_shrinks `{AttributeCodec} (s s1 s2 : BytearrayStream)
      (x : Attribute) (xs : list Attribute) :
  Attribute_read s = (inr x, s1) ->
  is_tag_next ATTRIBUTE s = true ->
  consumes ATTRIBUTE Attribute_read s1 xs s2 ->
  (length s1 < length s)%nat.
Proof.
  intros Hrd Hnext Hc.
  destruct (Attribute_read_shrinks _ _ _ Hrd) as [->|Hlt]; [|exact Hlt].
  exfalso.
  pose proof (consumes_field ATTRIBUTE Attribute_read s x s xs s2 Hnext Hrd Hc) as Hc'.
  destruct (consumes_functional _ _ _ _ _ _ _ Hc Hc') as [Heq _].
  apply (f_equal length) in Heq. simpl in Heq. lia.
Qed.

Lemma read_attributes_consumes `{AttributeCodec} (fuel : nat) (s s2 : BytearrayStream)
      (l : list Attribute) (self : Rs.t) :
  consumes ATTRIBUTE Attribute_read s l s2 ->
  (length s <= fuel)%nat ->
  Rs.read_attributes fuel s self
    = (inr s2, Rs.set__attributes (Rs._attributes self ++ l) self).
Proof.
  intros Hc. revert fuel self.
  induction Hc as [s Hstop|s x s1 xs s2 Hnext Hrd Hc IH]; intros fuel self Hfuel.
  - destruct fuel; simpl; rewrite Hstop, app_nil_r; destruct self; reflexivity.
  - pose proof (is_tag_next_length _ _ Hnext) as Hlen.
    pose proof (consumes_shrinks _ _ _ _ _ Hrd Hnext Hc) as Hlt.
    destruct fuel as [|fuel]; [lia|].
    simpl. rewrite Hnext. unfold bind, run_on, modify. rewrite Hrd. cbn [fst snd].
    rewrite IH by lia.
    cbn [Rs.set__attributes Rs._attributes]. rewrite <- app_assoc. reflexivity.
Qed.

(** Whatever the loop does, it touches [_attributes] only, and only by
    appending. *)
Lemma read_attributes_state `{AttributeCodec} (fuel : nat) (s : BytearrayStream)
      (self self' : Rs.t) (r : exception + BytearrayStream) :
  Rs.read_attributes fuel s self = (r, self') ->
  exists l, self' = Rs.set__attributes (Rs._attributes self ++ l) self.
Proof.
  revert s self. induction fuel as [|fuel IH]; intros s self; simpl.
  - destruct (is_tag_next ATTRIBUTE s); unfold raise, ret; intros [= <- <-];
      exists []; rewrite app_nil_r; destruct self; reflexivity.
  - destruct (is_tag_next ATTRIBUTE s).
    + unfold bind, run_on, modify.
      destruct (Attribute_read s) as [[e|a] s1] eqn:Hrd.
      * intros [= <- <-]. exists []. rewrite app_nil_r. destruct self; reflexivity.
      * cbn [fst snd]. intros Hloop. apply IH in Hloop as (l & ->).
        exists (a :: l). cbn [Rs.set__attributes Rs._attributes].
        rewrite <- app_assoc. reflexivity.
    + unfold ret. intros [= <- <-]. exists []. rewrite app_nil_r.
      destruct self; reflexivity.
Qed.

(** [LoopExhausted] marks the runs that do not end, and only them: when
    the loop gives it (and the codec itself never raises it), some decode
    took no byte off a stream whose next tag is [ATTRIBUTE], and the
    Python loop reads that stream again for ever. *)
Lemma read_attributes_exhausted `{AttributeCodec} (fuel : nat) (s : BytearrayStream)
      (self : Rs.t) :
  (forall t, Attribute_decode t <> inl LoopExhausted) ->
  (length s <= fuel)%nat ->
  fst (Rs.read_attributes fuel s self) = inl LoopExhausted ->
  exists t a, is_tag_next ATTRIBUTE t = true /\ Attribute_read t = (inr a, t).
Proof.
  intros Hcodec. revert s self.
  induction fuel as [|fuel IH]; intros s self Hfuel; simpl.
  - destruct (is_tag_next ATTRIBUTE s) eqn:Hnext; [|discriminate].
    apply is_tag_next_length in Hnext. lia.
  - destruct (is_tag_next ATTRIBUTE s) eqn:Hnext; [|discriminate].
    unfold bind, run_on, modify.
    destruct (Attribute_read s) as [[e|a] s1] eqn:Hrd.
    + cbn [fst]. intros [= ->]. exfalso. revert Hrd. unfold Attribute_read.
      destruct (Attribute_decode s) as [e|[a n]] eqn:Hd; [|discriminate].
      intros [= -> _]. apply (Hcodec _ Hd).
    + cbn [fst snd]. destruct (Attribute_read_shrinks _ _ _ Hrd) as [->|Hlt].
      * intros _. exists s, a. auto.
      * apply IH. lia.
Qed.

(** ** The response payload: [read] step by step *)

Lemma Rs_read_header_error `{AttributeCodec} (self : Rs.t) (istream s' : BytearrayStream)
      (e : exception) :
  Base_read RESPONSE_PAYLOAD STRUCTURE istream = (inl e, s') ->
  Rs.read (self, istream) = (inl e, (self, s')).
Proof.
  intros Hhdr. unfold Rs.read, bind, on_stream. cbn [fst snd]. rewrite Hhdr. reflexivity.
Qed.

Lemma Rs_read_no_uid `{AttributeCodec} (self : Rs.t) (istream rest : BytearrayStream)
      (len : Z) :
  Base_read RESPONSE_PAYLOAD STRUCTURE istream = (inr len, rest) ->
  is_tag_next UNIQUE_IDENTIFIER (take (Z.to_nat len) rest) = false ->
  Rs.read (self, istream) =
    (inl (InvalidKmipEncoding "expected GetAttributes response uid not found"),
     (Rs.set_length (Some len) self, drop (Z.to_nat len) rest)).
Proof.
  intros Hhdr Hnext.
  unfold Rs.read, bind, on_stream, on_self, modify, stream_read. cbn [fst snd].
  rewrite Hhdr. cbn [fst snd]. rewrite Hnext. reflexivity.
Qed.

Lemma Rs_read_uid_error `{AttributeCodec} (self : Rs.t) (istream rest s1 : BytearrayStream)
      (len : Z) (e : exception) :
  Base_read RESPONSE_PAYLOAD STRUCTURE istream = (inr len, rest) ->
  is_tag_next UNIQUE_IDENTIFIER (take (Z.to_nat len) rest) = true ->
  TextString.read (TextString.__init__ None UNIQUE_IDENTIFIER) (take (Z.to_nat len) rest)
    = (inl e, s1) ->
  Rs.read (self, istream) =
    (inl e, (Rs.set_length (Some len) self, drop (Z.to_nat len) rest)).
Proof.
  intros Hhdr Hnext Hrd.
  unfold Rs.read, bind, on_stream, on_self, modify, stream_read, run_on. cbn [fst snd].
  rewrite Hhdr. cbn [fst snd]. rewrite Hnext, Hrd. reflexivity.
Qed.

Lemma Rs_read_fields `{AttributeCodec} (self : Rs.t) (istream rest s1 : BytearrayStream)
      (len : Z) (u : TextString.t) :
  Base_read RESPONSE_PAYLOAD STRUCTURE istream = (inr len, rest) ->
  is_tag_next UNIQUE_IDENTIFIER (take (Z.to_nat len) rest) = true ->
  TextString.read (TextString.__init__ None UNIQUE_IDENTIFIER) (take (Z.to_nat len) rest)
    = (inr u, s1) ->
  Rs.read (self, istream) =
    match Rs.read_attributes (length s1) s1
            (Rs.set__attributes [] (Rs_with len (Some u) self)) with
    | (inl e, self') => (inl e, (self', drop (Z.to_nat len) rest))
    | (inr s2, self') =>
        (if (0 <? length s2)%nat then inl (InvalidKmipEncoding "oversized") else inr tt,
         (self', drop (Z.to_nat len) rest))
    end.
Proof.
  intros Hhdr Hnext Hrd.
  pose proof (TextString_read_consumes _ _ _ _ Hrd) as [_ Htag].
  unfold Rs.read, bind, on_stream, on_self, modify, stream_read, run_on. cbn [fst snd].
  rewrite Hhdr. cbn [fst snd]. rewrite Hnext, Hrd. cbn [fst snd].
  unfold Rs.uid_setter, modify, ret. cbn [fst snd].
  replace (TextString.__init__ (Some (TextString.value u)) UNIQUE_IDENTIFIER) with u
    by (destruct u; simpl in *; subst; reflexivity).
  change (Rs.set__uid (Some u) (Rs.set_length (Some len) self))
    with (Rs_with len (Some u) self).
  destruct (Rs.read_attributes _ _ _) as [[e|s2] self']; [reflexivity|].
  unfold is_oversized. destruct (0 <? length s2)%nat; reflexivity.
Qed.

(** ** The response payload: [write] *)

Lemma write_attributes_inv `{AttributeCodec} (attrs : list Attribute)
      (s s' : BytearrayStream) (r : unit) :
  write_each Attribute_write attrs s = (inr r, s') ->
  exists bs, attributes_bytes attrs = Some bs /\ s' = s ++ bs.
Proof.
  revert s. induction attrs as [|a attrs IH]; intros s; simpl.
  - unfold ret. intros [= _ <-]. exists []. rewrite app_nil_r. auto.
  - unfold bind, Attribute_write.
    destruct (Attribute_encode a) as [e|bs]; [discriminate|].
    unfold stream_write. intros Hrest. apply IH in Hrest as (rest & -> & ->).
    exists (bs ++ rest). rewrite app_assoc. auto.
Qed.

Lemma write_attributes_run `{AttributeCodec} (attrs : list Attribute)
      (s bs : BytearrayStream) :
  attributes_bytes attrs = Some bs ->
  write_each Attribute_write attrs s = (inr tt, s ++ bs).
Proof.
  revert s bs. induction attrs as [|a attrs IH]; intros s bs; simpl.
  - intros [= <-]. unfold ret. rewrite app_nil_r. reflexivity.
  - unfold bind, Attribute_write.
    destruct (Attribute_encode a) as [e|b]; [discriminate|].
    destruct (attributes_bytes attrs) as [rest|]; [|discriminate].
    intros [= <-]. unfold stream_write. rewrite (IH _ rest eq_refl), app_assoc.
    reflexivity.
Qed.

Lemma Rs_write_no_uid `{AttributeCodec} (self : Rs.t) (ostream : BytearrayStream) :
  Rs._uid self = None ->
  Rs.write (self, ostream) =
    (inl (InvalidField "The GetAttributes response uid is required."), (self, ostream)).
Proof.
  intros Hu. unfold Rs.write, bind, on_self, get, run_on, raise. cbn [fst snd].
  rewrite Hu. reflexivity.
Qed.

Lemma Rs_write_inv `{AttributeCodec} (self self' : Rs.t)
      (ostream ostream' : BytearrayStream) (r : unit) :
  Rs.write (self, ostream) = (inr r, (self', ostream')) ->
  exists u bs,
    Rs._uid self = Some u /\ fits u
    /\ attributes_bytes (Rs._attributes self) = Some bs
    /\ (stream_length (TextString_bytes u ++ bs) < 2 ^ 32)%Z
    /\ self' = Rs.set_length (Some (stream_length (TextString_bytes u ++ bs))) self
    /\ ostream' = ostream ++ frame RESPONSE_PAYLOAD (TextString_bytes u ++ bs).
Proof.
  unfold Rs.write. unfold bind at 1 2. unfold on_self at 1, get, run_on. cbn [fst snd].
  destruct (Rs._uid self) as [u|] eqn:Eu; [|unfold bind, raise; discriminate].
  unfold bind at 1.
  destruct (TextString.write u []) as [[e|[]] s1] eqn:E1; [discriminate|].
  apply TextString_write_inv in E1 as [Hf ->]. rewrite app_nil_l.
  destruct (write_each _ _ _) as [[e|[]] s2] eqn:E2; [discriminate|].
  apply write_attributes_inv in E2 as (bs & Hbs & ->).
  unfold bind, on_self, on_stream, modify. cbn [fst snd].
  destruct (Base_write _ _ _ ostream) as [[e|[]] s3] eqn:E3; [discriminate|].
  apply Base_write_inv in E3 as [Hlen ->]. unfold stream_write.
  intros [= _ <- <-]. exists u, bs. unfold frame.
  repeat split; try assumption; try lia. rewrite <- app_assoc. reflexivity.
Qed.

Lemma Rs_write_run `{AttributeCodec} (self : Rs.t) (ostream : BytearrayStream)
      (u : TextString.t) (bs : list byte) :
  Rs._uid self = Some u -> fits u ->
  attributes_bytes (Rs._attributes self) = Some bs ->
  (stream_length (TextString_bytes u ++ bs) < 2 ^ 32)%Z ->
  Rs.write (self, ostream) =
    (inr tt, (Rs.set_length (Some (stream_length (TextString_bytes u ++ bs))) self,
              ostream ++ frame RESPONSE_PAYLOAD (TextString_bytes u ++ bs))).
Proof.
  intros Hu Hf Hbs Hlen.
  unfold Rs.write. unfold bind at 1 2. unfold on_self at 1, get, run_on. cbn [fst snd].
  rewrite Hu. unfold bind at 1. rewrite TextString_write_run by exact Hf.
  rewrite app_nil_l, (write_attributes_run _ _ bs Hbs).
  unfold bind, on_self, on_stream, modify. cbn [fst snd].
  rewrite Base_write_run by (unfold stream_length in *; lia).
  unfold stream_write, frame. cbn [fst snd]. rewrite <- app_assoc. reflexivity.
Qed.

(** The wire image of a list of attributes is consumed back attribute by
    attribute, to attributes equal to those encoded. *)
Lemma consumes_attributes_bytes `{AC : AttributeCodec} (L : AttributeCodecLaws)
      (attrs : list Attribute) (bs rest : list byte) :
  attributes_bytes attrs = Some bs ->
  is_tag_next ATTRIBUTE rest = false ->
  exists attrs',
    consumes ATTRIBUTE Attribute_read (bs ++ rest) attrs' rest
    /\ Forall2 (fun a' a => Attribute_eq a' a = true) attrs' attrs.
Proof.
  intros Hbs Hrest. revert bs Hbs. induction attrs as [|a attrs IH]; intros bs; simpl.
  - intros [= <-]. exists []. split; [apply consumes_stop, Hrest|constructor].
  - destruct (Attribute_encode a) as [e|b] eqn:Ea; [discriminate|].
    destruct (attributes_bytes attrs) as [tl|]; [|discriminate].
    intros [= <-]. destruct (IH tl eq_refl) as (attrs' & Hc & Hall).
    destruct (Attribute_round_trip L a b (tl ++ rest) Ea) as (a' & Hrd & Heq).
    exists (a' :: attrs'). split; [|constructor; assumption].
    rewrite <- app_assoc. eapply consumes_field; [|exact Hrd|exact Hc].
    apply (Attribute_tagged L a b _ Ea).
Qed.

(** ** The text attribute codec satisfies the laws *)

Lemma TextAttribute_encode_inv (a : TextAttribute) (bs : list byte) :
  TextAttribute_encode a = inr bs ->
  let name := TextString.__init__ (Some (attribute_name a)) ATTRIBUTE_NAME in
  let val := TextString.__init__ (Some (attribute_value a)) ATTRIBUTE_VALUE in
  fits name /\ fits val
  /\ (stream_length (TextString_bytes name ++ TextString_bytes val) < 2 ^ 32)%Z
  /\ bs = frame ATTRIBUTE (TextString_bytes name ++ TextString_bytes val).
Proof.
  unfold TextAttribute_encode. unfold bind.
  match goal with
  | |- context [TextString.write ?x []] =>
      destruct (TextString.write x []) as [[e|[]] s1] eqn:E1; [discriminate|]
  end.
  apply TextString_write_inv in E1 as [Hn ->]. rewrite app_nil_l.
  match goal with
  | |- context [TextString.write ?x ?s] =>
      destruct (TextString.write x s) as [[e|[]] s2] eqn:E2; [discriminate|]
  end.
  apply TextString_write_inv in E2 as [Hv ->].
  match goal with
  | |- context [Base_write ?t ?y ?l []] =>
      destruct (Base_write t y l []) as [[e|[]] s3] eqn:E3; [discriminate|]
  end.
  apply Base_write_inv in E3 as [Hlen ->]. rewrite app_nil_l.
  unfold stream_write. intros [= <-]. cbv zeta. unfold frame.
  repeat split; try assumption; lia.
Qed.

Lemma TextAttribute_read_frame (a : TextAttribute) (bs rest : list byte) :
  TextAttribute_encode a = inr bs ->
  TextAttribute_read (bs ++ rest) = (inr a, rest).
Proof.
  intros Henc. apply TextAttribute_encode_inv in Henc as (Hn & Hv & Hlen & ->).
  unfold TextAttribute_read, frame.
  unfold bind at 1. rewrite <- app_assoc.
  rewrite Base_read_header by (unfold stream_length in *; lia).
  unfold bind at 1. unfold stream_length. rewrite Nat2Z.id.
  rewrite stream_read_app by reflexivity.
  unfold bind at 1. unfold run_on. unfold bind at 1.
  rewrite TextString_read_bytes by (try assumption; reflexivity).
  unfold bind at 1.
  rewrite <- (app_nil_r (TextString_bytes (TextString.__init__ (Some (attribute_value a)) _))).
  rewrite TextString_read_bytes by (try assumption; reflexivity).
  unfold ret, bind, is_oversized. cbn. destruct a; reflexivity.
Qed.

Lemma TextAttributeCodec_laws : @AttributeCodecLaws TextAttributeCodec.
Proof.
  split.
  - intros a bs rest Henc. apply TextAttribute_encode_inv in Henc as (_ & _ & _ & ->).
    unfold frame. rewrite <- app_assoc, is_tag_next_header.
    apply bool_decide_eq_true. reflexivity.
  - intros a bs rest Henc. exists a. split.
    + unfold Attribute_read. cbn [Attribute_decode TextAttributeCodec].
      unfold TextAttribute_decode. rewrite (TextAttribute_read_frame a bs rest Henc).
      rewrite length_app, Nat.add_sub, drop_app_length. reflexivity.
    + cbn [Attribute_eq TextAttributeCodec]. unfold TextAttribute_eq.
      rewrite !bool_decide_eq_true_2 by reflexivity. reflexivity.
Qed.

(** ** [read] as a whole *)

Lemma oversized_check (s : BytearrayStream) :
  (if (0 <? length s)%nat then inl (InvalidKmipEncoding "oversized") else inr tt)
  = match s with
    | [] => inr tt
    | _ :: _ => @inl exception unit (InvalidKmipEncoding "oversized")
    end.
Proof. destruct s; reflexivity. Qed.

(** When the fields of the body can be consumed, [read] stores them and
    then looks at what is left. *)
Lemma Rq_read_consumed (self : Rq.t) (istream rest s1 extra : BytearrayStream) (len : Z)
      (u : option TextString.t) (names : list TextString.t) :
  Base_read REQUEST_PAYLOAD STRUCTURE istream = (inr len, rest) ->
  consumes_uid (take (Z.to_nat len) rest) u s1 ->
  consumes ATTRIBUTE_NAME name_reader s1 names extra ->
  Rq.read (self, istream) =
    (match extra with
     | [] => inr tt
     | _ :: _ => inl (InvalidKmipEncoding "oversized")
     end,
     (Rq.set__attribute_names names (Rq_with len u self), drop (Z.to_nat len) rest)).
Proof.
  intros Hhdr Hu Hnames.
  rewrite (Rq_read_fields _ _ _ _ _ _ Hhdr Hu).
  rewrite (read_names_consumes _ [] _ _ _ Hnames) by lia.
  rewrite oversized_check. reflexivity.
Qed.

(** Every run of the request [read] either stops on an error of the
    header or of a text scalar, or consumes the fields of the body. *)
Lemma Rq_read_outcome (self : Rq.t) (istream : BytearrayStream)
      (r : exception + unit) (st : Rq.t * BytearrayStream) :
  Rq.read (self, istream) = (r, st) ->
  (exists msg, r = inl (CodecError msg))
  \/ exists len rest u s1 names extra,
       Base_read REQUEST_PAYLOAD STRUCTURE istream = (inr len, rest)
       /\ consumes_uid (take (Z.to_nat len) rest) u s1
       /\ consumes ATTRIBUTE_NAME name_reader s1 names extra
       /\ st = (Rq.set__attribute_names names (Rq_with len u self),
                drop (Z.to_nat len) rest)
       /\ r = match extra with
              | [] => inr tt
              | _ :: _ => inl (InvalidKmipEncoding "oversized")
              end.
Proof.
  intros Hread.
  destruct (Base_read REQUEST_PAYLOAD STRUCTURE istream) as [[e|len] rest] eqn:Hhdr.
  { rewrite (Rq_read_header_error _ _ _ _ Hhdr) in Hread. injection Hread as <- <-.
    left. destruct (Base_read_error _ _ _ _ _ Hhdr) as [msg ->]. eauto. }
  assert (Hcases :
    (exists e s1, is_tag_next UNIQUE_IDENTIFIER (take (Z.to_nat len) rest) = true
       /\ TextString.read (TextString.__init__ None UNIQUE_IDENTIFIER)
            (take (Z.to_nat len) rest) = (inl e, s1))
    \/ exists u s1, consumes_uid (take (Z.to_nat len) rest) u s1).
  { destruct (is_tag_next UNIQUE_IDENTIFIER (take (Z.to_nat len) rest)) eqn:Hnext.
    - destruct (TextString.read (TextString.__init__ None UNIQUE_IDENTIFIER)
                  (take (Z.to_nat len) rest)) as [[e|u] s1] eqn:Hrd.
      + left. eauto.
      + right. exists (Some u), s1. apply consumes_uid_some; assumption.
    - right. exists None, (take (Z.to_nat len) rest). apply consumes_uid_none, Hnext. }
  destruct Hcases as [(e & s1 & Hnext & Hrd)|(u & s1 & Hu)].
  { rewrite (Rq_read_uid_error _ _ _ _ _ _ Hhdr Hnext Hrd) in Hread.
    injection Hread as <- <-. left.
    destruct (TextString_read_error _ _ _ _ Hrd) as [msg ->]. eauto. }
  rewrite (Rq_read_fields _ _ _ _ _ _ Hhdr Hu) in Hread.
  destruct (Rq.read_names (length s1) [] s1) as [[e|names] s2] eqn:Hloop.
  { injection Hread as <- <-. left.
    destruct (read_names_error _ _ _ _ _ (Nat.le_refl _) Hloop) as [msg ->]. eauto. }
  apply read_names_inv in Hloop as (l & -> & Hc). rewrite app_nil_l in Hread.
  rewrite oversized_check in Hread. injection Hread as <- <-.
  right. exists len, rest, u, s1, l, s2. auto.
Qed.

Lemma Rq_read_success (self self' : Rq.t) (istream s' : BytearrayStream) (r : unit) :
  Rq.read (self, istream) = (inr r, (self', s')) ->
  exists len rest u s1 names,
    Base_read REQUEST_PAYLOAD STRUCTURE istream = (inr len, rest)
    /\ consumes_uid (take (Z.to_nat len) rest) u s1
    /\ consumes ATTRIBUTE_NAME name_reader s1 names []
    /\ self' = Rq.set__attribute_names names (Rq_with len u self)
    /\ s' = drop (Z.to_nat len) rest.
Proof.
  intros Hread. apply Rq_read_outcome in Hread as [[msg Hmsg]|Hok]; [discriminate|].
  destruct Hok as (len & rest & u & s1 & names & extra & Hhdr & Hu & Hc & Hst & Hr).
  destruct extra; [|discriminate]. injection Hst as -> ->.
  exists len, rest, u, s1, names. auto.
Qed.

Lemma Rs_read_consumed `{AttributeCodec} (self : Rs.t)
      (istream rest s1 extra : BytearrayStream) (len : Z)
      (u : TextString.t) (attrs : list Attribute) :
  Base_read RESPONSE_PAYLOAD STRUCTURE istream = (inr len, rest) ->
  consumes_uid (take (Z.to_nat len) rest) (Some u) s1 ->
  consumes ATTRIBUTE Attribute_read s1 attrs extra ->
  Rs.read (self, istream) =
    (match extra with
     | [] => inr tt
     | _ :: _ => inl (InvalidKmipEncoding "oversized")
     end,
     (Rs.set__attributes attrs (Rs_with len (Some u) self), drop (Z.to_nat len) rest)).
Proof.
  intros Hhdr Hu Hattrs. inversion Hu as [s u' s1' Hnext Hrd|]; subst.
  rewrite (Rs_read_fields _ _ _ _ _ _ Hhdr Hnext Hrd).
  rewrite (read_attributes_consumes _ _ _ _ _ Hattrs) by lia.
  rewrite oversized_check. reflexivity.
Qed.

Lemma Rs_read_success `{AttributeCodec} (self self' : Rs.t) (istream s' : BytearrayStream)
      (r : unit) :
  Rs.read (self, istream) = (inr r, (self', s')) ->
  exists len rest u s1 attrs,
    Base_read RESPONSE_PAYLOAD STRUCTURE istream = (inr len, rest)
    /\ consumes_uid (take (Z.to_nat len) rest) (Some u) s1
    /\ consumes ATTRIBUTE Attribute_read s1 attrs []
    /\ self' = Rs.set__attributes attrs (Rs_with len (Some u) self)
    /\ s' = drop (Z.to_nat len) rest.
Proof.
  intros Hread.
  destruct (Base_read RESPONSE_PAYLOAD STRUCTURE istream) as [[e|len] rest] eqn:Hhdr.
  { rewrite (Rs_read_header_error _ _ _ _ Hhdr) in Hread. discriminate. }
  destruct (is_tag_next UNIQUE_IDENTIFIER (take (Z.to_nat len) rest)) eqn:Hnext.
  2: { rewrite (Rs_read_no_uid _ _ _ _ Hhdr Hnext) in Hread. discriminate. }
  destruct (TextString.read (TextString.__init__ None UNIQUE_IDENTIFIER)
              (take (Z.to_nat len) rest)) as [[e|u] s1] eqn:Hrd.
  { rewrite (Rs_read_uid_error _ _ _ _ _ _ Hhdr Hnext Hrd) in Hread. discriminate. }
  rewrite (Rs_read_fields _ _ _ _ _ _ Hhdr Hnext Hrd) in Hread.
  destruct (Rs.read_attributes _ _ _) as [[e|s2] self''] eqn:Hloop; [discriminate|].
  apply read_attributes_inv in Hloop as (l & Hc & ->).
  rewrite oversized_check in Hread. destruct s2; [|discriminate].
  injection Hread as _ <- <-.
  exists len, rest, u, s1, l. repeat split; try assumption.
  apply consumes_uid_some; assumption.
Qed.

(** ** Whole wire images *)

Lemma TextString_bytes_length (ts : TextString.t) :
  length (TextString_bytes ts) = (8 + String.length (TextString.value ts))%nat.
Proof.
  unfold TextString_bytes.
  rewrite length_app, header_bytes_length, length_list_byte_of_string. reflexivity.
Qed.

Lemma fits_of_length (ts : TextString.t) (n : nat) :
  (length (TextString_bytes ts) <= n)%nat -> (Z.of_nat n < 2 ^ 32)%Z -> fits ts.
Proof. rewrite TextString_bytes_length. unfold fits. lia. Qed.

Lemma names_bytes_cons (ts : TextString.t) (names : list TextString.t) :
  names_bytes (ts :: names) = TextString_bytes ts ++ names_bytes names.
Proof. reflexivity. Qed.

Lemma names_bytes_fits (names : list TextString.t) (n : nat) :
  (length (names_bytes names) <= n)%nat -> (Z.of_nat n < 2 ^ 32)%Z -> Forall fits names.
Proof.
  intros Hlen Hn. induction names as [|ts names IH]; [constructor|].
  rewrite names_bytes_cons, length_app in Hlen.
  constructor; [eapply fits_of_length; [|exact Hn]; lia|apply IH; lia].
Qed.

Lemma names_bytes_not_uid (names : list TextString.t) :
  Forall (fun ts => TextString.tag ts = ATTRIBUTE_NAME) names ->
  is_tag_next UNIQUE_IDENTIFIER (names_bytes names) = false.
Proof.
  intros Hall. destruct Hall as [|ts names Htag _]; [reflexivity|].
  rewrite names_bytes_cons, TextString_bytes_tagged, Htag. reflexivity.
Qed.

(** Reading the wire image of an identifier and a list of names gives
    them back, the names as they are on the wire. *)
Lemma Rq_read_frame (self : Rq.t) (u : option TextString.t) (names : list TextString.t)
      (rest : list byte) :
  match u with Some ts => TextString.tag ts = UNIQUE_IDENTIFIER | None => True end ->
  Forall (fun ts => TextString.tag ts = ATTRIBUTE_NAME) names ->
  (stream_length (uid_bytes u ++ names_bytes names) < 2 ^ 32)%Z ->
  Rq.read (self, frame REQUEST_PAYLOAD (uid_bytes u ++ names_bytes names) ++ rest)
  = (inr tt,
     (Rq.set__attribute_names names
        (Rq_with (stream_length (uid_bytes u ++ names_bytes names)) u self),
      rest)).
Proof.
  intros Hu Hnames Hlen. unfold stream_length in Hlen. rewrite length_app in Hlen.
  assert (Hfits : Forall fits names) by (eapply names_bytes_fits; [|exact Hlen]; lia).
  assert (Hall : Forall (fun ts => fits ts /\ TextString.tag ts = ATTRIBUTE_NAME) names).
  { apply Forall_and. split; assumption. }
  pose proof (consumes_names_bytes names [] Hall (is_tag_next_nil _)) as Hc.
  rewrite app_nil_r in Hc.
  assert (Hcu : consumes_uid (uid_bytes u ++ names_bytes names) u (names_bytes names)).
  { apply consumes_uid_bytes. destruct u as [ts|].
    - split; [|exact Hu]. eapply fits_of_length; [|exact Hlen]. cbn [uid_bytes]. lia.
    - apply names_bytes_not_uid, Hnames. }
  set (body := uid_bytes u ++ names_bytes names) in *.
  assert (Hhdr : Base_read REQUEST_PAYLOAD STRUCTURE
                   (header_bytes REQUEST_PAYLOAD STRUCTURE (stream_length body)
                      ++ body ++ rest)
                 = (inr (stream_length body), body ++ rest)).
  { apply Base_read_header. unfold stream_length, body. rewrite length_app. lia. }
  assert (Htake : take (Z.to_nat (stream_length body)) (body ++ rest) = body).
  { unfold stream_length. rewrite Nat2Z.id. apply take_app_length. }
  assert (Hdrop : drop (Z.to_nat (stream_length body)) (body ++ rest) = rest).
  { unfold stream_length. rewrite Nat2Z.id. apply drop_app_length. }
  rewrite <- Htake in Hcu.
  pose proof (Rq_read_consumed self _ _ _ [] _ u names Hhdr Hcu Hc) as Hread.
  rewrite Hdrop in Hread. unfold frame. rewrite <- app_assoc. exact Hread.
Qed.

Lemma Rq_eq_same_fields (p q : Rq.t) :
  Rq.uid p = Rq.uid q -> Rq.attribute_names p = Rq.attribute_names q ->
  Rq.__eq__ p q = true.
Proof.
  intros Hu Hn. unfold Rq.__eq__. rewrite Hu, Hn.
  rewrite !bool_decide_eq_true_2 by reflexivity. reflexivity.
Qed.

Lemma check_attributes_all `{AttributeCodec} (attrs : list Attribute) (i : nat) :
  Rs.check_attributes (map PyAttribute attrs) i = inr attrs.
Proof.
  revert i. induction attrs as [|a attrs IH]; intros i; simpl; [reflexivity|].
  rewrite IH. reflexivity.
Qed.

Lemma Rs_init_run `{AttributeCodec} (uid : option string) (attrs : list Attribute) :
  Rs.__init__ (py_uid uid) (PyList (map PyAttribute attrs)) =
    inr {| Rs.length := None; Rs._uid := uid_scalar uid; Rs._attributes := attrs |}.
Proof.
  unfold Rs.__init__, bind, Rs.attributes_setter.
  rewrite check_attributes_all. destruct uid; reflexivity.
Qed.

Lemma attributes_differ_equal `{AttributeCodec} (xs ys : list Attribute) :
  Forall2 (fun a b => Attribute_eq a b = true) xs ys ->
  Rs.attributes_differ xs ys = false.
Proof.
  induction 1 as [|a b xs ys Hab _ IH]; simpl; [reflexivity|].
  rewrite Hab. exact IH.
Qed.

(** Reading the wire image of an identifier and a list of attributes gives
    the identifier back, and attributes equal to those encoded. *)
Lemma Rs_read_frame `{AC : AttributeCodec} (L : AttributeCodecLaws) (self : Rs.t)
      (u : TextString.t) (attrs : list Attribute) (bs rest : list byte) :
  TextString.tag u = UNIQUE_IDENTIFIER ->
  attributes_bytes attrs = Some bs ->
  (stream_length (TextString_bytes u ++ bs) < 2 ^ 32)%Z ->
  exists attrs',
    Forall2 (fun a' a => Attribute_eq a' a = true) attrs' attrs
    /\ Rs.read (self, frame RESPONSE_PAYLOAD (TextString_bytes u ++ bs) ++ rest)
       = (inr tt,
          (Rs.set__attributes attrs'
             (Rs_with (stream_length (TextString_bytes u ++ bs)) (Some u) self),
           rest)).
Proof.
  intros Htag Hbs Hlen. unfold stream_length in Hlen.
  destruct (consumes_attributes_bytes L attrs bs [] Hbs (is_tag_next_nil _))
    as (attrs' & Hc & Hall).
  rewrite app_nil_r in Hc.
  exists attrs'. split; [exact Hall|].
  assert (Hcu : consumes_uid (TextString_bytes u ++ bs) (Some u) bs).
  { apply (consumes_uid_bytes (Some u)). split; [|exact Htag].
    eapply fits_of_length; [|exact Hlen]. rewrite length_app. lia. }
  set (body := TextString_bytes u ++ bs) in *.
  assert (Hhdr : Base_read RESPONSE_PAYLOAD STRUCTURE
                   (header_bytes RESPONSE_PAYLOAD STRUCTURE (stream_length body)
                      ++ body ++ rest)
                 = (inr (stream_length body), body ++ rest)).
  { apply Base_read_header. unfold stream_length. lia. }
  assert (Htake : take (Z.to_nat (stream_length body)) (body ++ rest) = body).
  { unfold stream_length. rewrite Nat2Z.id. apply take_app_length. }
  assert (Hdrop : drop (Z.to_nat (stream_length body)) (body ++ rest) = rest).
  { unfold stream_length. rewrite Nat2Z.id. apply drop_app_length. }
  rewrite <- Htake in Hcu.
  pose proof (Rs_read_consumed self _ _ _ [] _ u attrs' Hhdr Hcu Hc) as Hread.
  rewrite Hdrop in Hread. unfold frame. rewrite <- app_assoc. exact Hread.
Qed.

(** ** What [write] and a failing setter leave behind *)

Lemma Rq_write_state (self self' : Rq.t) (ostream ostream' : BytearrayStream)
      (r : exception + unit) :
  Rq.write (self, ostream) = (r, (self', ostream')) ->
  Rq._uid self' = Rq._uid self /\ Rq._attribute_names self' = Rq._attribute_names self.
Proof.
  unfold Rq.write. unfold bind at 1 2. unfold on_self at 1, get, run_on. cbn [fst snd].
  match goal with
  | |- context [bind ?a ?b []] => destruct (bind a b []) as [[e|[]] body]
  end.
  - intros [= _ <- _]. auto.
  - unfold bind, on_self, on_stream, modify. cbn [fst snd].
    destruct (Base_write _ _ _ ostream) as [[e|[]] s3].
    + intros [= _ <- _]. auto.
    + unfold stream_write. intros [= _ <- _]. auto.
Qed.

Lemma Rs_write_state `{AttributeCodec} (self self' : Rs.t)
      (ostream ostream' : BytearrayStream) (r : exception + unit) :
  Rs.write (self, ostream) = (r, (self', ostream')) ->
  Rs._uid self' = Rs._uid self /\ Rs._attributes self' = Rs._attributes self.
Proof.
  unfold Rs.write. unfold bind at 1 2. unfold on_self at 1, get, run_on. cbn [fst snd].
  match goal with
  | |- context [bind ?a ?b []] => destruct (bind a b []) as [[e|[]] body]
  end.
  - intros [= _ <- _]. auto.
  - unfold bind, on_self, on_stream, modify. cbn [fst snd].
    destruct (Base_write _ _ _ ostream) as [[e|[]] s3].
    + intros [= _ <- _]. auto.
    + unfold stream_write. intros [= _ <- _]. auto.
Qed.

Lemma Rq_uid_setter_fails `{AttributeCodec} (value : PyValue) (self self' : Rq.t)
      (e : exception) :
  Rq.uid_setter value self = (inl e, self') -> self' = self.
Proof. destruct value; unfold Rq.uid_setter, modify, raise; congruence. Qed.

Lemma Rq_attribute_names_setter_fails `{AttributeCodec} (value : PyValue)
      (self self' : Rq.t) (e : exception) :
  Rq.attribute_names_setter value self = (inl e, self') -> self' = self.
Proof.
  destruct value; unfold Rq.attribute_names_setter, modify, raise; try congruence.
  destruct (Rq.collect_names _ _ _); congruence.
Qed.

Lemma Rs_uid_setter_fails `{AttributeCodec} (value : PyValue) (self self' : Rs.t)
      (e : exception) :
  Rs.uid_setter value self = (inl e, self') -> self' = self.
Proof. destruct value; unfold Rs.uid_setter, modify, raise; congruence. Qed.

Lemma Rs_attributes_setter_fails `{AttributeCodec} (value : PyValue)
      (self self' : Rs.t) (e : exception) :
  Rs.attributes_setter value self = (inl e, self') -> self' = self.
Proof.
  destruct value; unfold Rs.attributes_setter, modify, raise; try congruence.
  destruct (Rs.check_attributes _ _); congruence.
Qed.

(** * The properties of the specification *)

(** C4.  For every list of strings given to the [attribute_names] setter
    or to the constructor of the request payload, the stored names are the
    input with duplicates removed, each value kept at its first occurrence
    and the order of the input otherwise preserved: the stored list is
    [keep_first_occurrences], it has no duplicates, it has the elements of
    the input and it is a subsequence of the input.  The names
    ["a"; "b"; "a"; "c"] are stored as ["a"; "b"; "c"]. *)
Theorem attribute_names_keep_first_occurrences `{AttributeCodec} :
  (forall (l : list string) (self : Rq.t),
      exists self',
        Rq.attribute_names_setter (PyList (map PyStr l)) self = (inr tt, self')
        /\ Rq.attribute_names self' = keep_first_occurrences [] l)
  /\ (forall (uid : option string) (l : list string),
      exists p,
        Rq.__init__ (py_uid uid) (PyList (map PyStr l)) = inr p
        /\ Rq.attribute_names p = keep_first_occurrences [] l)
  /\ (forall l : list string,
      NoDup (keep_first_occurrences [] l)
      /\ (forall x, x ∈ keep_first_occurrences [] l <-> x ∈ l)
      /\ sublist (keep_first_occurrences [] l) l)
  /\ (forall (uid : option string) (p : Rq.t),
      Rq.__init__ (py_uid uid) (PyList [PyStr "a"; PyStr "b"; PyStr "a"; PyStr "c"]) = inr p ->
      Rq.attribute_names p = ["a"; "b"; "c"]).
Proof.
  split; [|split; [|split]].
  - intros l self. eexists. split.
    + unfold Rq.attribute_names_setter.
      rewrite (collect_names_strings l 0 [] []) by reflexivity.
      rewrite app_nil_l. unfold modify. reflexivity.
    + apply attribute_names_of_scalars.
  - intros uid l. eexists. split; [apply Rq_init_run|].
    apply (attribute_names_of_scalars _
             {| Rq.length := None; Rq._uid := uid_scalar uid; Rq._attribute_names := [] |}).
  - intros l. split; [apply keep_first_occurrences_NoDup|].
    split; [|apply keep_first_occurrences_sublist].
    intros x. rewrite keep_first_occurrences_elem. split; [intros [Hx _]; exact Hx|].
    intros Hx. split; [exact Hx|]. apply not_elem_of_nil.
  - intros uid p Hp.
    change [PyStr "a"; PyStr "b"; PyStr "a"; PyStr "c"]
      with (map PyStr ["a"; "b"; "a"; "c"]) in Hp.
    rewrite Rq_init_run in Hp. injection Hp as <-. reflexivity.
Qed.

Lemma attribute_names_keep_first_occurrences_witness :
  Rq.attribute_names
    {| Rq.length := None;
       Rq._uid := None;
       Rq._attribute_names := name_scalars ["a"; "b"; "c"] |} = ["a"; "b"; "c"].
Proof.
  destruct (@attribute_names_keep_first_occurrences TextAttributeCodec) as (_ & _ & _ & H).
  apply (H None). reflexivity.
Defined.

(** C7, as stated, fails.  For the input ["a", 5] the first element that
    is not a string is at zero-based position 1, and the message of the
    [TypeError] names item 2. *)
Lemma attribute_names_item_not_zero_based :
  first_non_string (H := TextAttributeCodec) [PyStr "a"; PyInt 5] = Some (1%nat, PyInt 5)
  /\ fst (Rq.attribute_names_setter (H := TextAttributeCodec)
            (PyList [PyStr "a"; PyInt 5]) Rq_new)
     = inl (TypeError
              "attribute_names must be a list of strings; item 2 has type <class 'int'>")
  /\ fst (Rq.attribute_names_setter (H := TextAttributeCodec)
            (PyList [PyStr "a"; PyInt 5]) Rq_new)
     <> inl (TypeError (Rq.item_message 1 (type (H := TextAttributeCodec) (PyInt 5)))).
Proof. split; [reflexivity|]. split; [reflexivity|]. discriminate. Qed.

(** C7, amended.  For every list given to the [attribute_names] setter
    that holds an element that is not a string, the setter raises a
    [TypeError] whose message names the one-based position of the first
    such element (its index plus one) and the type of that element, and the
    payload is left as it was. *)
Theorem attribute_names_item_one_based `{AttributeCodec}
        (l : list PyValue) (i : nat) (v : PyValue) (self : Rq.t) :
  first_non_string l = Some (i, v) ->
  Rq.attribute_names_setter (PyList l) self
  = (inl (TypeError (Rq.item_message (i + 1) (type v))), self).
Proof.
  intros Hfirst. unfold Rq.attribute_names_setter.
  rewrite (collect_names_offending l 0 i v [] Hfirst). reflexivity.
Qed.

Lemma attribute_names_item_one_based_witness :
  Rq.attribute_names_setter (H := TextAttributeCodec) (PyList [PyStr "a"; PyInt 5]) Rq_new
  = (inl (TypeError
            "attribute_names must be a list of strings; item 2 has type <class 'int'>"),
     Rq_new).
Proof.
  apply (@attribute_names_item_one_based TextAttributeCodec
           [PyStr "a"; PyInt 5] 1 (PyInt 5) Rq_new).
  reflexivity.
Defined.

(** C5.  Equality of request payloads does not see the order of the
    names: two request payloads with equal identifiers whose names are
    equal as sets are equal, and so are the payloads built with
    ["a"; "b"] and with ["b"; "a"].  Equality of response payloads sees the
    order of the attributes: with equal identifiers and attributes
    [X; Y] and [Y; X], where [X != Y], two response payloads are not
    equal. *)
Theorem equality_names_unordered_attributes_ordered `{AttributeCodec} :
  (forall p q : Rq.t,
      Rq.uid p = Rq.uid q ->
      (forall x, x ∈ Rq.attribute_names p <-> x ∈ Rq.attribute_names q) ->
      Rq.__eq__ p q = true)
  /\ (forall (uid : option string) (p q : Rq.t),
      Rq.__init__ (py_uid uid) (PyList [PyStr "a"; PyStr "b"]) = inr p ->
      Rq.__init__ (py_uid uid) (PyList [PyStr "b"; PyStr "a"]) = inr q ->
      Rq.__eq__ p q = true /\ Rq.attribute_names p <> Rq.attribute_names q)
  /\ (forall (p q : Rs.t) (X Y : Attribute),
      Rs.uid p = Rs.uid q ->
      Rs.attributes p = [X; Y] ->
      Rs.attributes q = [Y; X] ->
      Attribute_eq X Y = false ->
      Rs.__eq__ p q = false).
Proof.
  split; [|split].
  - intros p q Huid Hnames. unfold Rq.__eq__.
    rewrite (bool_decide_eq_true_2 _ Huid).
    rewrite bool_decide_eq_true_2; [reflexivity|].
    apply set_eq. intros x. rewrite !elem_of_list_to_set. apply Hnames.
  - intros uid p q Hp Hq.
    change [PyStr "a"; PyStr "b"] with (map PyStr ["a"; "b"]) in Hp.
    change [PyStr "b"; PyStr "a"] with (map PyStr ["b"; "a"]) in Hq.
    rewrite Rq_init_run in Hp, Hq. injection Hp as <-. injection Hq as <-.
    split; [|discriminate].
    unfold Rq.__eq__.
    rewrite (bool_decide_eq_true_2 (Rq.uid _ = Rq.uid _)) by reflexivity.
    rewrite bool_decide_eq_true_2; [reflexivity|].
    apply set_eq. intros x. rewrite !elem_of_list_to_set. cbn.
    rewrite !elem_of_cons. tauto.
  - intros p q X Y Huid Hp Hq Hne. unfold Rs.attributes in Hp, Hq. unfold Rs.__eq__.
    rewrite (bool_decide_eq_true_2 _ Huid), Hp, Hq. cbn. rewrite Hne. reflexivity.
Qed.

Lemma equality_names_unordered_attributes_ordered_witness :
  Rq.__eq__
    {| Rq.length := None; Rq._uid := None; Rq._attribute_names := name_scalars ["a"; "b"] |}
    {| Rq.length := None; Rq._uid := None; Rq._attribute_names := name_scalars ["b"; "a"] |}
  = true
  /\ Rs.__eq__ (H := TextAttributeCodec)
       {| Rs.length := None; Rs._uid := None;
          Rs._attributes := [attribute_one; attribute_two] |}
       {| Rs.length := None; Rs._uid := None;
          Rs._attributes := [attribute_two; attribute_one] |}
     = false.
Proof.
  destruct (@equality_names_unordered_attributes_ordered TextAttributeCodec)
    as (Hset & Hbuilt & Hresp).
  split.
  - apply (Hbuilt None); reflexivity.
  - eapply Hresp; reflexivity.
Defined.

(** C2.  A response payload whose identifier is absent cannot be written:
    [write] raises [InvalidField] ("The GetAttributes response uid is
    required.") and leaves the output stream and the payload as they were.
    A [write] that returns has written the identifier first in the
    body. *)
Theorem response_write_requires_uid `{AttributeCodec} :
  (forall (self : Rs.t) (ostream : BytearrayStream),
      Rs.uid self = None ->
      Rs.write (self, ostream)
      = (inl (InvalidField "The GetAttributes response uid is required."),
         (self, ostream)))
  /\ (forall (self self' : Rs.t) (ostream ostream' : BytearrayStream) (r : unit),
      Rs.write (self, ostream) = (inr r, (self', ostream')) ->
      exists u rest,
        Rs._uid self = Some u
        /\ Rs.uid self = Some (TextString.value u)
        /\ ostream' = ostream ++ frame RESPONSE_PAYLOAD (TextString_bytes u ++ rest)).
Proof.
  split.
  - intros self ostream Huid. apply Rs_write_no_uid.
    unfold Rs.uid in Huid. destruct (Rs._uid self); [discriminate|reflexivity].
  - intros self self' ostream ostream' r Hw.
    apply Rs_write_inv in Hw as (u & bs & Hu & _ & _ & _ & _ & ->).
    exists u, bs. unfold Rs.uid. rewrite Hu. auto.
Qed.

Lemma response_write_requires_uid_witness :
  Rs.write (H := TextAttributeCodec) (Rs_new, [])
  = (inl (InvalidField "The GetAttributes response uid is required."), (Rs_new, [])).
Proof.
  destruct (@response_write_requires_uid TextAttributeCodec) as [Hnone _].
  apply Hnone. reflexivity.
Defined.

(** C3.  When the body of a response payload does not start with the
    identifier tag, [read] raises [InvalidKmipEncoding] ("expected
    GetAttributes response uid not found"); and a [read] that returns
    leaves a payload whose identifier is present. *)
Theorem response_read_requires_uid `{AttributeCodec} :
  (forall (self : Rs.t) (istream rest : BytearrayStream) (len : Z),
      Base_read RESPONSE_PAYLOAD STRUCTURE istream = (inr len, rest) ->
      is_tag_next UNIQUE_IDENTIFIER (take (Z.to_nat len) rest) = false ->
      fst (Rs.read (self, istream))
      = inl (InvalidKmipEncoding "expected GetAttributes response uid not found"))
  /\ (forall (self self' : Rs.t) (istream istream' : BytearrayStream) (r : unit),
      Rs.read (self, istream) = (inr r, (self', istream')) ->
      Rs.uid self' <> None).
Proof.
  split.
  - intros self istream rest len Hhdr Hnext.
    rewrite (Rs_read_no_uid _ _ _ _ Hhdr Hnext). reflexivity.
  - intros self self' istream istream' r Hread.
    apply Rs_read_success in Hread as (len & rest & u & s1 & attrs & _ & _ & _ & -> & _).
    discriminate.
Qed.

Lemma response_read_requires_uid_witness :
  fst (Rs.read (H := TextAttributeCodec)
         (Rs_new, frame RESPONSE_PAYLOAD
                    (TextString_bytes (TextString.__init__ (Some "x-serial") ATTRIBUTE_NAME))))
  = inl (InvalidKmipEncoding "expected GetAttributes response uid not found").
Proof.
  destruct (@response_read_requires_uid TextAttributeCodec) as [Hmissing _].
  eapply Hmissing; reflexivity.
Defined.

(** C9.  Decoding a request payload does not deduplicate: whatever names
    the body carries, equal or not, the decoded payload stores exactly
    them, in the order of the wire. *)
Theorem read_keeps_names_of_the_wire
        (self : Rq.t) (uid : option string) (names : list string) (rest : list byte) :
  (stream_length (uid_bytes (uid_scalar uid) ++ names_bytes (name_scalars names)) < 2 ^ 32)%Z ->
  exists self',
    Rq.read (self, frame REQUEST_PAYLOAD
                     (uid_bytes (uid_scalar uid) ++ names_bytes (name_scalars names))
                   ++ rest)
    = (inr tt, (self', rest))
    /\ Rq.attribute_names self' = names
    /\ Rq.uid self' = uid.
Proof.
  intros Hlen. eexists. split; [|split].
  - apply Rq_read_frame; [destruct uid; reflexivity|apply name_scalars_tagged|exact Hlen].
  - apply attribute_names_of_scalars.
  - destruct uid; reflexivity.
Qed.

Lemma read_keeps_names_of_the_wire_witness :
  exists self',
    Rq.read (Rq_new,
             frame REQUEST_PAYLOAD
               (uid_bytes (uid_scalar (Some "12345678"))
                  ++ names_bytes (name_scalars ["x-serial"; "x-serial"; "x-colour"; "x-serial"])))
    = (inr tt, (self', []))
    /\ Rq.attribute_names self' = ["x-serial"; "x-serial"; "x-colour"; "x-serial"]
    /\ Rq.uid self' = Some "12345678".
Proof.
  pose proof (read_keeps_names_of_the_wire Rq_new (Some "12345678")
                ["x-serial"; "x-serial"; "x-colour"; "x-serial"] []) as H.
  rewrite app_nil_r in H. apply H. vm_compute. reflexivity.
Defined.

(** C1.  Round trip.  For a request payload built from any identifier
    (a string or none) and any list of names, and for a response payload
    built from an identifier string and any list of attributes, decoding
    the bytes that encoding produced gives a payload equal to the one
    encoded, under [__eq__] of its class; whatever follows the bytes in
    the stream is left there. *)
Theorem decode_encode_round_trip `{AC : AttributeCodec} (L : AttributeCodecLaws) :
  (forall (uid : option string) (names : list string) (p pw p0 : Rq.t)
          (bytes rest : list byte),
      Rq.__init__ (py_uid uid) (PyList (map PyStr names)) = inr p ->
      Rq.write (p, []) = (inr tt, (pw, bytes)) ->
      exists p', Rq.read (p0, bytes ++ rest) = (inr tt, (p', rest))
                 /\ Rq.__eq__ p' p = true)
  /\ (forall (uid : string) (attrs : list Attribute) (p pw p0 : Rs.t)
             (bytes rest : list byte),
      Rs.__init__ (PyStr uid) (PyList (map PyAttribute attrs)) = inr p ->
      Rs.write (p, []) = (inr tt, (pw, bytes)) ->
      exists p', Rs.read (p0, bytes ++ rest) = (inr tt, (p', rest))
                 /\ Rs.__eq__ p' p = true).
Proof.
  split.
  - intros uid names p pw p0 bytes rest Hp Hw.
    rewrite Rq_init_run in Hp. injection Hp as <-.
    apply Rq_write_inv in Hw as (_ & _ & Hlen & _ & ->).
    rewrite app_nil_l. unfold Rq_body in *. cbn [Rq._uid Rq._attribute_names] in *.
    eexists. split.
    + apply Rq_read_frame; [destruct uid; reflexivity|apply name_scalars_tagged|exact Hlen].
    + apply Rq_eq_same_fields; [reflexivity|].
      rewrite !attribute_names_map. reflexivity.
  - intros uid attrs p pw p0 bytes rest Hp Hw.
    change (PyStr uid) with (py_uid (Some uid)) in Hp.
    rewrite Rs_init_run in Hp. injection Hp as <-.
    apply Rs_write_inv in Hw as (u & bs & Hu & _ & Hbs & Hlen & _ & ->).
    cbn [Rs._uid Rs._attributes uid_scalar] in Hu, Hbs. injection Hu as <-.
    rewrite app_nil_l.
    destruct (Rs_read_frame L p0 (TextString.__init__ (Some uid) UNIQUE_IDENTIFIER)
                attrs bs rest eq_refl Hbs Hlen) as (attrs' & Hall & Hread).
    eexists. split; [exact Hread|].
    unfold Rs.__eq__. cbn [Rs._attributes Rs.set__attributes].
    rewrite bool_decide_eq_true_2 by reflexivity. cbn [negb].
    rewrite (Forall2_length _ _ _ Hall), Nat.eqb_refl. cbn [negb].
    rewrite (attributes_differ_equal _ _ Hall). reflexivity.
Qed.

Lemma decode_encode_round_trip_witness :
  (exists p',
      Rq.read (Rq_new,
               snd (snd (Rq.write
                           ({| Rq.length := None;
                               Rq._uid := uid_scalar (Some "12345678");
                               Rq._attribute_names := name_scalars ["x-serial"; "x-colour"] |},
                            []))))
      = (inr tt, (p', []))
      /\ Rq.__eq__ p'
           {| Rq.length := None;
              Rq._uid := uid_scalar (Some "12345678");
              Rq._attribute_names := name_scalars ["x-serial"; "x-colour"] |} = true)
  /\ (exists p',
      Rs.read (H := TextAttributeCodec)
        (Rs_new,
         snd (snd (Rs.write
                     ({| Rs.length := None;
                         Rs._uid := uid_scalar (Some "12345678");
                         Rs._attributes := [attribute_one; attribute_two] |},
                      []))))
      = (inr tt, (p', []))
      /\ Rs.__eq__ p'
           {| Rs.length := None;
              Rs._uid := uid_scalar (Some "12345678");
              Rs._attributes := [attribute_one; attribute_two] |} = true).
Proof.
  destruct (@decode_encode_round_trip TextAttributeCodec TextAttributeCodec_laws)
    as [Hreq Hresp].
  split.
  - pose proof (Hreq (Some "12345678") ["x-serial"; "x-colour"; "x-serial"]
                  _ _ Rq_new _ [] eq_refl eq_refl) as H.
    rewrite app_nil_r in H. exact H.
  - pose proof (Hresp "12345678" [attribute_one; attribute_two]
                  _ _ Rs_new _ [] eq_refl eq_refl) as H.
    rewrite app_nil_r in H. exact H.
Defined.

(** C6.  Once the identifier and the repeated fields whose tag matches
    have been consumed from the sub-region that the declared length carves
    out, [read] succeeds if nothing is left and raises
    [InvalidKmipEncoding] ("oversized") if bytes are left; and a [read]
    that returns has consumed the whole sub-region. *)
Theorem read_rejects_trailing_bytes `{AttributeCodec} :
  (forall (self : Rq.t) (istream rest s1 extra : BytearrayStream) (len : Z)
          (u : option TextString.t) (names : list TextString.t),
      Base_read REQUEST_PAYLOAD STRUCTURE istream = (inr len, rest) ->
      consumes_uid (take (Z.to_nat len) rest) u s1 ->
      consumes ATTRIBUTE_NAME name_reader s1 names extra ->
      fst (Rq.read (self, istream))
      = match extra with
        | [] => inr tt
        | _ :: _ => inl (InvalidKmipEncoding "oversized")
        end)
  /\ (forall (self self' : Rq.t) (istream istream' : BytearrayStream) (r : unit),
      Rq.read (self, istream) = (inr r, (self', istream')) ->
      exists len rest u s1 names,
        Base_read REQUEST_PAYLOAD STRUCTURE istream = (inr len, rest)
        /\ consumes_uid (take (Z.to_nat len) rest) u s1
        /\ consumes ATTRIBUTE_NAME name_reader s1 names [])
  /\ (forall (self : Rs.t) (istream rest s1 extra : BytearrayStream) (len : Z)
             (u : TextString.t) (attrs : list Attribute),
      Base_read RESPONSE_PAYLOAD STRUCTURE istream = (inr len, rest) ->
      consumes_uid (take (Z.to_nat len) rest) (Some u) s1 ->
      consumes ATTRIBUTE Attribute_read s1 attrs extra ->
      fst (Rs.read (self, istream))
      = match extra with
        | [] => inr tt
        | _ :: _ => inl (InvalidKmipEncoding "oversized")
        end)
  /\ (forall (self self' : Rs.t) (istream istream' : BytearrayStream) (r : unit),
      Rs.read (self, istream) = (inr r, (self', istream')) ->
      exists len rest u s1 attrs,
        Base_read RESPONSE_PAYLOAD STRUCTURE istream = (inr len, rest)
        /\ consumes_uid (take (Z.to_nat len) rest) (Some u) s1
        /\ consumes ATTRIBUTE Attribute_read s1 attrs []).
Proof.
  split; [|split; [|split]].
  - intros self istream rest s1 extra len u names Hhdr Hu Hc.
    rewrite (Rq_read_consumed _ _ _ _ _ _ _ _ Hhdr Hu Hc). reflexivity.
  - intros self self' istream istream' r Hread.
    apply Rq_read_success in Hread as (len & rest & u & s1 & names & Hhdr & Hu & Hc & _).
    exists len, rest, u, s1, names. auto.
  - intros self istream rest s1 extra len u attrs Hhdr Hu Hc.
    rewrite (Rs_read_consumed _ _ _ _ _ _ _ _ Hhdr Hu Hc). reflexivity.
  - intros self self' istream istream' r Hread.
    apply Rs_read_success in Hread as (len & rest & u & s1 & attrs & Hhdr & Hu & Hc & _).
    exists len, rest, u, s1, attrs. auto.
Qed.

(** C10.  A [read] that returns has overwritten what the payload held:
    two request payloads, or two response payloads, that decode the same
    stream end with the same identifier and the same names or attributes,
    whatever they held before. *)
Theorem read_overwrites_prior_state `{AttributeCodec} :
  (forall (p1 p2 p1' p2' : Rq.t) (istream s1 s2 : BytearrayStream) (r1 r2 : unit),
      Rq.read (p1, istream) = (inr r1, (p1', s1)) ->
      Rq.read (p2, istream) = (inr r2, (p2', s2)) ->
      Rq.uid p1' = Rq.uid p2'
      /\ Rq.attribute_names p1' = Rq.attribute_names p2'
      /\ Rq._attribute_names p1' = Rq._attribute_names p2'
      /\ s1 = s2)
  /\ (forall (p1 p2 p1' p2' : Rs.t) (istream s1 s2 : BytearrayStream) (r1 r2 : unit),
      Rs.read (p1, istream) = (inr r1, (p1', s1)) ->
      Rs.read (p2, istream) = (inr r2, (p2', s2)) ->
      Rs.uid p1' = Rs.uid p2'
      /\ Rs.attributes p1' = Rs.attributes p2'
      /\ s1 = s2).
Proof.
  split.
  - intros p1 p2 p1' p2' istream s1 s2 r1 r2 H1 H2.
    apply Rq_read_success in H1 as (len & rest & u & t1 & names & Hhdr & Hu & Hc & -> & ->).
    apply Rq_read_success in H2 as (len2 & rest2 & u2 & t2 & names2 & Hhdr2 & Hu2 & Hc2 & -> & ->).
    rewrite Hhdr in Hhdr2. injection Hhdr2 as <- <-.
    destruct (consumes_uid_functional _ _ _ _ _ Hu Hu2) as [<- <-].
    destruct (consumes_functional _ _ _ _ _ _ _ Hc Hc2) as [<- _].
    repeat split; reflexivity.
  - intros p1 p2 p1' p2' istream s1 s2 r1 r2 H1 H2.
    apply Rs_read_success in H1 as (len & rest & u & t1 & attrs & Hhdr & Hu & Hc & -> & ->).
    apply Rs_read_success in H2 as (len2 & rest2 & u2 & t2 & attrs2 & Hhdr2 & Hu2 & Hc2 & -> & ->).
    rewrite Hhdr in Hhdr2. injection Hhdr2 as <- <-.
    destruct (consumes_uid_functional _ _ _ _ _ Hu Hu2) as [Heq <-]. injection Heq as <-.
    destruct (consumes_functional _ _ _ _ _ _ _ Hc Hc2) as [<- _].
    repeat split; reflexivity.
Qed.

Lemma read_rejects_trailing_bytes_witness :
  fst (Rq.read (Rq_new, request_with_trailing_byte))
  = inl (InvalidKmipEncoding "oversized")
  /\ fst (Rs.read (H := TextAttributeCodec) (Rs_new, response_with_trailing_byte))
     = inl (InvalidKmipEncoding "oversized")
  /\ (exists len rest u s1 names,
         Base_read REQUEST_PAYLOAD STRUCTURE
           (frame REQUEST_PAYLOAD (TextString_bytes sample_uid)) = (inr len, rest)
         /\ consumes_uid (take (Z.to_nat len) rest) u s1
         /\ consumes ATTRIBUTE_NAME name_reader s1 names [])
  /\ (exists len rest u s1 attrs,
         Base_read RESPONSE_PAYLOAD STRUCTURE
           (frame RESPONSE_PAYLOAD (TextString_bytes sample_uid)) = (inr len, rest)
         /\ consumes_uid (take (Z.to_nat len) rest) (Some u) s1
         /\ consumes ATTRIBUTE (Attribute_read (H := TextAttributeCodec)) s1 attrs []).
Proof.
  destruct (@read_rejects_trailing_bytes TextAttributeCodec) as (Hq & Hqok & Hs & Hsok).
  split; [|split; [|split]].
  - apply (Hq Rq_new request_with_trailing_byte
              (TextString_bytes sample_uid ++ [x00]) [x00] [x00] 17%Z (Some sample_uid) []).
    + reflexivity.
    + apply consumes_uid_some; reflexivity.
    + apply consumes_stop. reflexivity.
  - apply (Hs Rs_new response_with_trailing_byte
              (TextString_bytes sample_uid ++ [x00]) [x00] [x00] 17%Z sample_uid []).
    + reflexivity.
    + apply consumes_uid_some; reflexivity.
    + apply consumes_stop. reflexivity.
  - eapply (Hqok Rq_new _ (frame REQUEST_PAYLOAD (TextString_bytes sample_uid)) _ tt).
    reflexivity.
  - eapply (Hsok Rs_new _ (frame RESPONSE_PAYLOAD (TextString_bytes sample_uid)) _ tt).
    reflexivity.
Defined.

Lemma read_overwrites_prior_state_witness :
  Rq.uid (fst (snd (Rq.read (Rq_new, frame REQUEST_PAYLOAD (TextString_bytes sample_uid)))))
  = Rq.uid (fst (snd (Rq.read
                        ({| Rq.length := Some 0%Z;
                            Rq._uid := None;
                            Rq._attribute_names := name_scalars ["x-serial"] |},
                         frame REQUEST_PAYLOAD (TextString_bytes sample_uid)))))
  /\ Rs.attributes
       (fst (snd (Rs.read (H := TextAttributeCodec)
                    (Rs_new, frame RESPONSE_PAYLOAD (TextString_bytes sample_uid)))))
     = Rs.attributes
         (fst (snd (Rs.read (H := TextAttributeCodec)
                      ({| Rs.length := Some 0%Z;
                          Rs._uid := None;
                          Rs._attributes := [attribute_one] |},
                       frame RESPONSE_PAYLOAD (TextString_bytes sample_uid))))).
Proof.
  destruct (@read_overwrites_prior_state TextAttributeCodec) as [Hq Hs].
  split.
  - eapply (Hq Rq_new
              {| Rq.length := Some 0%Z; Rq._uid := None;
                 Rq._attribute_names := name_scalars ["x-serial"] |}
              _ _ (frame REQUEST_PAYLOAD (TextString_bytes sample_uid)) _ _ tt tt);
      reflexivity.
  - eapply (Hs Rs_new
              {| Rs.length := Some 0%Z; Rs._uid := None; Rs._attributes := [attribute_one] |}
              _ _ (frame RESPONSE_PAYLOAD (TextString_bytes sample_uid)) _ _ tt tt);
      reflexivity.
Defined.

(** C8, as stated, fails.  Decoding, into a fresh request payload, a body
    that holds an identifier followed by one more byte raises the
    "oversized" error, and the payload that had no identifier now has
    one. *)
Lemma failed_read_is_not_atomic :
  request_with_trailing_byte
  = [x42; x00; x79; x01; x00; x00; x00; x11;
     x42; x00; x94; x07; x00; x00; x00; x08;
     x31; x32; x33; x34; x35; x36; x37; x38;
     x00]
  /\ Rq.uid Rq_new = None
  /\ exists self',
       Rq.read (Rq_new, request_with_trailing_byte)
       = (inl (InvalidKmipEncoding "oversized"), (self', []))
       /\ Rq.uid self' = Some "12345678"
       /\ Rq.uid self' <> Rq.uid Rq_new.
Proof.
  split; [reflexivity|]. split; [reflexivity|].
  eexists. split; [reflexivity|]. split; [reflexivity|discriminate].
Qed.

(** C8, amended.  A setter that raises leaves the payload as it was, and
    [write], whether it returns or raises, leaves the identifier and the
    names or attributes as they were; a response [read] that raises for a
    missing identifier leaves the identifier and the attributes as they
    were.  A [read] that raises on trailing bytes is not atomic: the
    payload then holds the identifier and the names, or attributes, that
    were decoded from the sub-region. *)
Theorem failures_and_payload_state `{AttributeCodec} :
  (forall (value : PyValue) (self self' : Rq.t) (e : exception),
      Rq.uid_setter value self = (inl e, self')
      \/ Rq.attribute_names_setter value self = (inl e, self') ->
      self' = self)
  /\ (forall (value : PyValue) (self self' : Rs.t) (e : exception),
      Rs.uid_setter value self = (inl e, self')
      \/ Rs.attributes_setter value self = (inl e, self') ->
      self' = self)
  /\ (forall (self self' : Rq.t) (ostream ostream' : BytearrayStream) (r : exception + unit),
      Rq.write (self, ostream) = (r, (self', ostream')) ->
      Rq.uid self' = Rq.uid self /\ Rq.attribute_names self' = Rq.attribute_names self)
  /\ (forall (self self' : Rs.t) (ostream ostream' : BytearrayStream) (r : exception + unit),
      Rs.write (self, ostream) = (r, (self', ostream')) ->
      Rs.uid self' = Rs.uid self /\ Rs.attributes self' = Rs.attributes self)
  /\ (forall (self : Rs.t) (istream rest : BytearrayStream) (len : Z),
      Base_read RESPONSE_PAYLOAD STRUCTURE istream = (inr len, rest) ->
      is_tag_next UNIQUE_IDENTIFIER (take (Z.to_nat len) rest) = false ->
      exists self' istream',
        Rs.read (self, istream)
        = (inl (InvalidKmipEncoding "expected GetAttributes response uid not found"),
           (self', istream'))
        /\ Rs.uid self' = Rs.uid self /\ Rs.attributes self' = Rs.attributes self)
  /\ (forall (self : Rq.t) (istream rest s1 extra : BytearrayStream) (len : Z)
             (u : option TextString.t) (names : list TextString.t),
      Base_read REQUEST_PAYLOAD STRUCTURE istream = (inr len, rest) ->
      consumes_uid (take (Z.to_nat len) rest) u s1 ->
      consumes ATTRIBUTE_NAME name_reader s1 names extra ->
      extra <> [] ->
      exists self' istream',
        Rq.read (self, istream) = (inl (InvalidKmipEncoding "oversized"), (self', istream'))
        /\ Rq._uid self' = u /\ Rq._attribute_names self' = names)
  /\ (forall (self : Rs.t) (istream rest s1 extra : BytearrayStream) (len : Z)
             (u : TextString.t) (attrs : list Attribute),
      Base_read RESPONSE_PAYLOAD STRUCTURE istream = (inr len, rest) ->
      consumes_uid (take (Z.to_nat len) rest) (Some u) s1 ->
      consumes ATTRIBUTE Attribute_read s1 attrs extra ->
      extra <> [] ->
      exists self' istream',
        Rs.read (self, istream) = (inl (InvalidKmipEncoding "oversized"), (self', istream'))
        /\ Rs._uid self' = Some u /\ Rs.attributes self' = attrs).
Proof.
  repeat apply conj.
  - intros value self self' e [Hset|Hset].
    + eapply Rq_uid_setter_fails, Hset.
    + eapply Rq_attribute_names_setter_fails, Hset.
  - intros value self self' e [Hset|Hset].
    + eapply Rs_uid_setter_fails, Hset.
    + eapply Rs_attributes_setter_fails, Hset.
  - intros self self' ostream ostream' r Hw.
    apply Rq_write_state in Hw as [Hu Hn].
    unfold Rq.uid. rewrite !attribute_names_map, Hu, Hn. auto.
  - intros self self' ostream ostream' r Hw.
    apply Rs_write_state in Hw as [Hu Hn].
    unfold Rs.uid, Rs.attributes. rewrite Hu, Hn. auto.
  - intros self istream rest len Hhdr Hnext.
    rewrite (Rs_read_no_uid _ _ _ _ Hhdr Hnext). eauto.
  - intros self istream rest s1 extra len u names Hhdr Hu Hc Hextra.
    rewrite (Rq_read_consumed _ _ _ _ _ _ _ _ Hhdr Hu Hc).
    destruct extra; [contradiction|]. eauto.
  - intros self istream rest s1 extra len u attrs Hhdr Hu Hc Hextra.
    rewrite (Rs_read_consumed _ _ _ _ _ _ _ _ Hhdr Hu Hc).
    destruct extra; [contradiction|]. eauto.
Qed.

Lemma failures_and_payload_state_witness :
  (exists self' istream',
      Rq.read (Rq_new, request_with_trailing_byte)
      = (inl (InvalidKmipEncoding "oversized"), (self', istream'))
      /\ Rq._uid self' = Some sample_uid /\ Rq._attribute_names self' = [])
  /\ (exists self' istream',
      Rs.read (H := TextAttributeCodec) (Rs_new, response_with_trailing_byte)
      = (inl (InvalidKmipEncoding "oversized"), (self', istream'))
      /\ Rs._uid self' = Some sample_uid /\ Rs.attributes self' = [])
  /\ (exists self' istream',
      Rs.read (H := TextAttributeCodec)
        ({| Rs.length := None; Rs._uid := Some sample_uid; Rs._attributes := [attribute_one] |},
         frame RESPONSE_PAYLOAD [])
      = (inl (InvalidKmipEncoding "expected GetAttributes response uid not found"),
         (self', istream'))
      /\ Rs.uid self' = Some "12345678" /\ Rs.attributes self' = [attribute_one]).
Proof.
  destruct (@failures_and_payload_state TextAttributeCodec)
    as (_ & _ & _ & _ & Hmissing & Hq & Hs).
  split; [|split].
  - apply (Hq Rq_new request_with_trailing_byte
              (TextString_bytes sample_uid ++ [x00]) [x00] [x00] 17%Z (Some sample_uid) []).
    + reflexivity.
    + apply consumes_uid_some; reflexivity.
    + apply consumes_stop. reflexivity.
    + discriminate.
  - apply (Hs Rs_new response_with_trailing_byte
              (TextString_bytes sample_uid ++ [x00]) [x00] [x00] 17%Z sample_uid []).
    + reflexivity.
    + apply consumes_uid_some; reflexivity.
    + apply consumes_stop. reflexivity.
    + discriminate.
  - apply (Hmissing
             {| Rs.length := None; Rs._uid := Some sample_uid; Rs._attributes := [attribute_one] |}
             (frame RESPONSE_PAYLOAD []) [] 0%Z); reflexivity.
Defined.


(** * Further properties of the payload classes *)

(** ** The setters *)

Lemma collect_names_returns `{AttributeCodec} (l : list PyValue) (i : nat)
      (names names' : list string) :
  Rq.collect_names l i names = inr names' -> exists strs, l = map PyStr strs.
Proof.
  revert i names. induction l as [|v l IH]; intros i names; simpl.
  - intros _. exists []. reflexivity.
  - destruct v; try discriminate.
    intros Hl. apply IH in Hl as [strs ->]. exists (s :: strs). reflexivity.
Qed.

Lemma check_attributes_returns `{AttributeCodec} (l : list PyValue) (i : nat)
      (attrs : list Attribute) :
  Rs.check_attributes l i = inr attrs -> l = map PyAttribute attrs.
Proof.
  revert i attrs. induction l as [|v l IH]; intros i attrs; simpl.
  - intros [= <-]. reflexivity.
  - destruct v; try discriminate.
    destruct (Rs.check_attributes l (S i)) as [e|attrs'] eqn:Hl; [discriminate|].
    intros [= <-]. rewrite (IH _ _ Hl). reflexivity.
Qed.

Lemma check_attributes_offending `{AttributeCodec} (l : list PyValue) (k i : nat)
      (v : PyValue) :
  first_non_attribute l = Some (i, v) ->
  Rs.check_attributes l k = inl (TypeError (Rs.item_message (k + i + 1) (type v))).
Proof.
  revert k i. induction l as [|w l IH]; intros k i; simpl; [discriminate|].
  destruct w; try (intros [= <- <-]; rewrite Nat.add_0_r; reflexivity).
  destruct (first_non_attribute l) as [[j u]|]; [|discriminate].
  intros [= <- <-]. rewrite (IH (S k) j eq_refl). do 3 f_equal. lia.
Qed.

Lemma keep_first_occurrences_NoDup_id (seen l : list string) :
  NoDup l -> (forall x, x ∈ l -> x ∉ seen) -> keep_first_occurrences seen l = l.
Proof.
  intros Hnd. revert seen. induction Hnd as [|x l Hx Hnd IH]; intros seen Hseen; simpl.
  - reflexivity.
  - rewrite bool_decide_eq_false_2 by (apply Hseen; left).
    f_equal. apply IH. intros y Hy. rewrite elem_of_app, list_elem_of_singleton.
    intros [Hs| ->]; [|contradiction].
    apply (Hseen y); [right; exact Hy|exact Hs].
Qed.

(** X1.  The [uid] property of both classes: setting a string and reading
    the property gives the string back, setting [None] gives [None], and
    neither touches the names or attributes; any other value raises
    [TypeError] ("uid must be a string") and leaves the payload as it
    was.  The constructors validate the identifier first: with such a
    value they raise that error whatever their second argument is. *)
Theorem uid_property `{AttributeCodec} :
  (forall (uid : option string) (self : Rq.t),
      exists self',
        Rq.uid_setter (py_uid uid) self = (inr tt, self')
        /\ Rq.uid self' = uid
        /\ Rq._attribute_names self' = Rq._attribute_names self)
  /\ (forall (uid : option string) (self : Rs.t),
      exists self',
        Rs.uid_setter (py_uid uid) self = (inr tt, self')
        /\ Rs.uid self' = uid
        /\ Rs.attributes self' = Rs.attributes self)
  /\ (forall (value second : PyValue) (p : Rq.t) (r : Rs.t),
      (forall uid, value <> py_uid uid) ->
      Rq.uid_setter value p = (inl (TypeError "uid must be a string"), p)
      /\ Rs.uid_setter value r = (inl (TypeError "uid must be a string"), r)
      /\ Rq.__init__ value second = inl (TypeError "uid must be a string")
      /\ Rs.__init__ value second = inl (TypeError "uid must be a string")).
Proof.
  split; [|split].
  - intros [s|] self; eexists; (split; [reflexivity|]); split; reflexivity.
  - intros [s|] self; eexists; (split; [reflexivity|]); split; reflexivity.
  - intros value second p r Hvalue.
    destruct value as [|z|s|l|a];
      try (exfalso; apply (Hvalue None); reflexivity);
      try (exfalso; apply (Hvalue (Some s)); reflexivity);
      repeat split; reflexivity.
Qed.

Lemma uid_property_witness :
  Rq.uid_setter (H := TextAttributeCodec) (PyInt 7) Rq_new
  = (inl (TypeError "uid must be a string"), Rq_new)
  /\ Rs.uid_setter (H := TextAttributeCodec) (PyInt 7) Rs_new
     = (inl (TypeError "uid must be a string"), Rs_new)
  /\ Rq.__init__ (H := TextAttributeCodec) (PyInt 7) (PyInt 8)
     = inl (TypeError "uid must be a string")
  /\ Rs.__init__ (H := TextAttributeCodec) (PyInt 7) (PyInt 8)
     = inl (TypeError "uid must be a string").
Proof.
  destruct (@uid_property TextAttributeCodec) as (_ & _ & Hbad).
  apply (Hbad (PyInt 7) (PyInt 8) Rq_new Rs_new).
  intros [s|]; discriminate.
Defined.

(** X2.  What the [attribute_names] setter accepts: it returns exactly
    for [None], which empties the names, and for a list whose elements are
    all strings; a value that is neither [None] nor a list raises
    [TypeError] ("attribute_names must be a list of strings") and leaves
    the payload as it was. *)
Theorem attribute_names_setter_accepts `{AttributeCodec} :
  (forall (value : PyValue) (self : Rq.t),
      (exists self', Rq.attribute_names_setter value self = (inr tt, self'))
      <-> value = PyNone \/ exists l, value = PyList (map PyStr l))
  /\ (forall self : Rq.t,
      exists self',
        Rq.attribute_names_setter PyNone self = (inr tt, self')
        /\ Rq.attribute_names self' = [] /\ Rq.uid self' = Rq.uid self)
  /\ (forall (value : PyValue) (self : Rq.t),
      value <> PyNone -> (forall l, value <> PyList l) ->
      Rq.attribute_names_setter value self
      = (inl (TypeError "attribute_names must be a list of strings"), self)).
Proof.
  split; [|split].
  - intros value self. split.
    + intros [self' Hset]. destruct value as [|z|s|l|a]; try discriminate.
      * left. reflexivity.
      * right. unfold Rq.attribute_names_setter in Hset.
        destruct (Rq.collect_names l 0 []) as [e|names] eqn:Hl; [discriminate|].
        apply collect_names_returns in Hl as [strs ->]. exists strs. reflexivity.
    + intros [->|[l ->]].
      * eexists. reflexivity.
      * unfold Rq.attribute_names_setter.
        rewrite (collect_names_strings l 0 [] []) by reflexivity.
        eexists. reflexivity.
  - intros self. eexists. split; [reflexivity|]. split; reflexivity.
  - intros value self Hnone Hlist.
    destruct value as [|z|s|l|a]; try reflexivity.
    + contradiction.
    + exfalso. apply (Hlist l). reflexivity.
Qed.

Lemma attribute_names_setter_accepts_witness :
  Rq.attribute_names_setter (H := TextAttributeCodec) (PyInt 123) Rq_new
  = (inl (TypeError "attribute_names must be a list of strings"), Rq_new).
Proof.
  destruct (@attribute_names_setter_accepts TextAttributeCodec) as (_ & _ & Hbad).
  apply Hbad; [discriminate|]. intros l. discriminate.
Defined.

(** X3.  The [attributes] setter of the response payload keeps a list of
    attributes exactly as given, duplicates and order included, and
    returns only for [None], which empties the list, and for a list whose
    elements are all attributes. *)
Theorem attributes_setter_keeps_list `{AttributeCodec} :
  (forall (attrs : list Attribute) (self : Rs.t),
      exists self',
        Rs.attributes_setter (PyList (map PyAttribute attrs)) self = (inr tt, self')
        /\ Rs.attributes self' = attrs /\ Rs.uid self' = Rs.uid self)
  /\ (forall (value : PyValue) (self self' : Rs.t),
      Rs.attributes_setter value self = (inr tt, self') ->
      (value = PyNone /\ Rs.attributes self' = [])
      \/ (value = PyList (map PyAttribute (Rs.attributes self')))).
Proof.
  split.
  - intros attrs self. unfold Rs.attributes_setter. rewrite check_attributes_all.
    eexists. split; [reflexivity|]. split; reflexivity.
  - intros value self self' Hset. destruct value as [|z|s|l|a]; try discriminate.
    + left. injection Hset as <-. split; reflexivity.
    + right. unfold Rs.attributes_setter in Hset.
      destruct (Rs.check_attributes l 0) as [e|attrs] eqn:Hl; [discriminate|].
      injection Hset as <-. apply check_attributes_returns in Hl as ->. reflexivity.
Qed.

Lemma attributes_setter_keeps_list_witness :
  Rs.attributes
    (snd (Rs.attributes_setter (H := TextAttributeCodec)
            (PyList [PyAttribute attribute_two; PyAttribute attribute_one;
                     PyAttribute attribute_two]) Rs_new))
  = [attribute_two; attribute_one; attribute_two].
Proof.
  destruct (@attributes_setter_keeps_list TextAttributeCodec) as [_ Hinv].
  destruct (Hinv (PyList [PyAttribute attribute_two; PyAttribute attribute_one;
                          PyAttribute attribute_two])
              Rs_new _ eq_refl) as [[Hnone _]|Hlist]; [discriminate Hnone|].
  reflexivity.
Defined.

(** X4.  When a list given to the [attributes] setter holds an element
    that is not an attribute, the setter raises [TypeError] with the
    one-based position of the first such element and its type, and a
    value that is neither [None] nor a list raises [TypeError]
    ("attributes must be a list of attribute objects"); in both cases the
    payload is left as it was. *)
Theorem attributes_setter_rejects `{AttributeCodec} :
  (forall (l : list PyValue) (i : nat) (v : PyValue) (self : Rs.t),
      first_non_attribute l = Some (i, v) ->
      Rs.attributes_setter (PyList l) self
      = (inl (TypeError (Rs.item_message (i + 1) (type v))), self))
  /\ (forall (value : PyValue) (self : Rs.t),
      value <> PyNone -> (forall l, value <> PyList l) ->
      Rs.attributes_setter value self
      = (inl (TypeError "attributes must be a list of attribute objects"), self)).
Proof.
  split.
  - intros l i v self Hfirst. unfold Rs.attributes_setter.
    rewrite (check_attributes_offending l 0 i v Hfirst). reflexivity.
  - intros value self Hnone Hlist.
    destruct value as [|z|s|l|a]; try reflexivity.
    + contradiction.
    + exfalso. apply (Hlist l). reflexivity.
Qed.

Lemma attributes_setter_rejects_witness :
  Rs.attributes_setter (H := TextAttributeCodec)
    (PyList [PyAttribute attribute_one; PyStr "x-two"; PyInt 3]) Rs_new
  = (inl (TypeError
            "attributes must be a list of attribute objects; item 2 has type <class 'str'>"),
     Rs_new)
  /\ Rs.attributes_setter (H := TextAttributeCodec) (PyStr "x-one") Rs_new
     = (inl (TypeError "attributes must be a list of attribute objects"), Rs_new).
Proof.
  destruct (@attributes_setter_rejects TextAttributeCodec) as [Hitem Hbad].
  split.
  - apply (Hitem [PyAttribute attribute_one; PyStr "x-two"; PyInt 3] 1 (PyStr "x-two") Rs_new).
    reflexivity.
  - apply Hbad; [discriminate|]. intros l. discriminate.
Defined.

(** X5.  Giving the [attribute_names] setter the names it has just stored
    changes nothing: the names that the property returns are free of
    duplicates, so storing them again stores the same list.  The setter
    replaces the names, it never adds to those already there. *)
Theorem attribute_names_setter_idempotent `{AttributeCodec}
        (l : list string) (self self1 : Rq.t) :
  Rq.attribute_names_setter (PyList (map PyStr l)) self = (inr tt, self1) ->
  NoDup (Rq.attribute_names self1)
  /\ Rq.attribute_names_setter (PyList (map PyStr (Rq.attribute_names self1))) self1
     = (inr tt, self1)
  /\ forall other : Rq.t,
       Rq._attribute_names
         (snd (Rq.attribute_names_setter (PyList (map PyStr l)) other))
       = Rq._attribute_names self1.
Proof.
  unfold Rq.attribute_names_setter.
  rewrite (collect_names_strings l 0 [] []) by reflexivity. rewrite app_nil_l.
  unfold modify. intros [= <-].
  change (map (fun name => TextString.__init__ (Some name) ATTRIBUTE_NAME)
            (keep_first_occurrences [] l))
    with (name_scalars (keep_first_occurrences [] l)).
  rewrite attribute_names_of_scalars.
  split; [apply keep_first_occurrences_NoDup|]. split; [|reflexivity].
  rewrite (collect_names_strings _ 0 [] []) by reflexivity. rewrite app_nil_l.
  rewrite keep_first_occurrences_NoDup_id.
  - reflexivity.
  - apply keep_first_occurrences_NoDup.
  - intros x _. apply not_elem_of_nil.
Qed.

Lemma attribute_names_setter_idempotent_witness :
  NoDup (Rq.attribute_names
           (Rq.set__attribute_names (name_scalars ["a"; "b"; "c"]) Rq_new))
  /\ Rq.attribute_names_setter (H := TextAttributeCodec)
       (PyList (map PyStr
                  (Rq.attribute_names
                     (Rq.set__attribute_names (name_scalars ["a"; "b"; "c"]) Rq_new))))
       (Rq.set__attribute_names (name_scalars ["a"; "b"; "c"]) Rq_new)
     = (inr tt, Rq.set__attribute_names (name_scalars ["a"; "b"; "c"]) Rq_new)
  /\ forall other : Rq.t,
       Rq._attribute_names
         (snd (Rq.attribute_names_setter (H := TextAttributeCodec)
                 (PyList (map PyStr ["a"; "b"; "a"; "c"])) other))
       = Rq._attribute_names
           (Rq.set__attribute_names (name_scalars ["a"; "b"; "c"]) Rq_new).
Proof.
  apply (@attribute_names_setter_idempotent TextAttributeCodec
           ["a"; "b"; "a"; "c"] Rq_new).
  reflexivity.
Defined.

(** ** Equality *)

Lemma attributes_differ_Forall2 `{AttributeCodec} (xs ys : list Attribute) :
  length xs = length ys ->
  Rs.attributes_differ xs ys = false ->
  Forall2 (fun a b => Attribute_eq a b = true) xs ys.
Proof.
  revert ys. induction xs as [|a xs IH]; intros [|b ys]; simpl; try discriminate.
  - intros _ _. constructor.
  - intros [= Hlen]. destruct (Attribute_eq a b) eqn:Hab; simpl; [|discriminate].
    intros Hrest. constructor; [exact Hab|apply IH; assumption].
Qed.

(** X6.  [__eq__] of request payloads holds exactly when the identifiers
    are equal and the names are the same as sets.  It is an equivalence
    relation, and it does not look at the order of the names, at repeated
    names or at the length that [read] and [write] store. *)
Theorem request_equality_is_set_equality :
  (forall p q : Rq.t,
      Rq.__eq__ p q = true
      <-> Rq.uid p = Rq.uid q
          /\ forall x, x ∈ Rq.attribute_names p <-> x ∈ Rq.attribute_names q)
  /\ (forall p : Rq.t, Rq.__eq__ p p = true)
  /\ (forall p q : Rq.t, Rq.__eq__ p q = Rq.__eq__ q p)
  /\ (forall p q r : Rq.t,
      Rq.__eq__ p q = true -> Rq.__eq__ q r = true -> Rq.__eq__ p r = true)
  /\ (forall (p q : Rq.t) (v : option Z),
      Rq.__eq__ (Rq.set_length v p) q = Rq.__eq__ p q).
Proof.
  assert (Hiff : forall p q : Rq.t,
      Rq.__eq__ p q = true
      <-> Rq.uid p = Rq.uid q
          /\ forall x, x ∈ Rq.attribute_names p <-> x ∈ Rq.attribute_names q).
  { intros p q. unfold Rq.__eq__. split.
    - destruct (bool_decide (Rq.uid p = Rq.uid q)) eqn:Hu; [|discriminate].
      apply bool_decide_eq_true in Hu.
      destruct (bool_decide (_ =@{gset string} _)) eqn:Hn; [|discriminate].
      apply bool_decide_eq_true in Hn. intros _. split; [exact Hu|].
      intros x. rewrite <- !(elem_of_list_to_set (C := gset string)), Hn. reflexivity.
    - intros [Hu Hn]. rewrite (bool_decide_eq_true_2 _ Hu).
      rewrite bool_decide_eq_true_2; [reflexivity|].
      apply set_eq. intros x. rewrite !elem_of_list_to_set. apply Hn. }
  split; [exact Hiff|]. split; [|split; [|split]].
  - intros p. apply Hiff. split; reflexivity.
  - intros p q. destruct (Rq.__eq__ q p) eqn:Hqp.
    + apply Hiff. apply Hiff in Hqp as [Hu Hn]. split; [symmetry; exact Hu|].
      intros x. symmetry. apply Hn.
    + destruct (Rq.__eq__ p q) eqn:Hpq; [|reflexivity].
      rewrite <- Hqp. symmetry. apply Hiff. apply Hiff in Hpq as [Hu Hn].
      split; [symmetry; exact Hu|]. intros x. symmetry. apply Hn.
  - intros p q r Hpq Hqr. apply Hiff in Hpq as [Hu1 Hn1]. apply Hiff in Hqr as [Hu2 Hn2].
    apply Hiff. split; [congruence|]. intros x. rewrite Hn1. apply Hn2.
  - intros p q v. reflexivity.
Qed.

Lemma request_equality_is_set_equality_witness :
  Rq.__eq__
    (Rq.set__attribute_names (name_scalars ["a"; "b"; "a"]) Rq_new)
    (Rq.set_length (Some 26%Z) (Rq.set__attribute_names (name_scalars ["b"; "a"]) Rq_new))
  = true.
Proof.
  destruct request_equality_is_set_equality as (_ & _ & _ & Htrans & _).
  apply (Htrans _ (Rq.set__attribute_names (name_scalars ["a"; "b"]) Rq_new));
    reflexivity.
Defined.

(** X7.  [__eq__] of response payloads holds exactly when the identifiers
    are equal and the two lists of attributes have the same length and
    are equal element by element, in order, under the equality of
    attributes; lists of different lengths are never equal. *)
Theorem response_equality_is_pairwise `{AttributeCodec} :
  (forall p q : Rs.t,
      Rs.__eq__ p q = true
      <-> Rs.uid p = Rs.uid q
          /\ Forall2 (fun a b => Attribute_eq a b = true)
               (Rs.attributes p) (Rs.attributes q))
  /\ (forall p q : Rs.t,
      length (Rs.attributes p) <> length (Rs.attributes q) -> Rs.__eq__ p q = false).
Proof.
  split.
  - intros p q. unfold Rs.__eq__, Rs.attributes. split.
    + destruct (bool_decide (Rs.uid p = Rs.uid q)) eqn:Hu; [|discriminate].
      apply bool_decide_eq_true in Hu. cbn [negb].
      destruct (Nat.eqb_spec (List.length (Rs._attributes p))
                  (List.length (Rs._attributes q))) as [Hlen|Hlen]; [|discriminate].
      cbn [negb].
      destruct (Rs.attributes_differ _ _) eqn:Hd; [discriminate|].
      intros _. split; [exact Hu|]. apply attributes_differ_Forall2; assumption.
    + intros [Hu Hall]. rewrite (bool_decide_eq_true_2 _ Hu). cbn [negb].
      rewrite (Forall2_length _ _ _ Hall), Nat.eqb_refl. cbn [negb].
      rewrite (attributes_differ_equal _ _ Hall). reflexivity.
  - intros p q Hlen. unfold Rs.__eq__, Rs.attributes in *.
    destruct (negb (bool_decide _)); [reflexivity|].
    destruct (Nat.eqb_spec (List.length (Rs._attributes p))
                (List.length (Rs._attributes q))) as [Heq|Hne]; [contradiction|].
    reflexivity.
Qed.

Lemma response_equality_is_pairwise_witness :
  Rs.__eq__ (H := TextAttributeCodec)
    (Rs.set__attributes [attribute_one] Rs_new)
    (Rs.set__attributes [attribute_one; attribute_one] Rs_new) = false.
Proof.
  destruct (@response_equality_is_pairwise TextAttributeCodec) as [_ Hlen].
  apply Hlen. discriminate.
Defined.

(** ** What a successful read says about the bytes *)

Lemma byte_of_Z_of_byte (b : byte) : byte_of_Z (Z_of_byte b) = b.
Proof.
  pose proof (Z_of_byte_range b) as Hb.
  unfold byte_of_Z. rewrite Z.mod_small by exact Hb.
  unfold Z_of_byte. rewrite N2Z.id, Byte.of_to_N. reflexivity.
Qed.

Lemma byte_of_Z_mod (z : Z) : byte_of_Z (z mod 256) = byte_of_Z z.
Proof. unfold byte_of_Z. rewrite Z.mod_mod by lia. reflexivity. Qed.

Lemma pack_unpack_be (bs : list byte) : pack_be (length bs) (unpack_be bs) = bs.
Proof.
  induction bs as [|b bs IH] using rev_ind; [reflexivity|].
  rewrite length_app, Nat.add_1_r, unpack_be_snoc. cbn [length pack_be].
  pose proof (Z_of_byte_range b) as Hb.
  replace ((unpack_be bs * 256 + Z_of_byte b) / 256)%Z with (unpack_be bs)
    by (rewrite Z.div_add_l, Z.div_small by lia; lia).
  rewrite IH. f_equal. f_equal.
  rewrite <- byte_of_Z_mod, Z.add_comm, Z.mod_add, Z.mod_small by lia.
  apply byte_of_Z_of_byte.
Qed.

Lemma unpack_be_range (bs : list byte) :
  (0 <= unpack_be bs < 256 ^ Z.of_nat (length bs))%Z.
Proof.
  induction bs as [|b bs IH] using rev_ind; [unfold unpack_be; simpl; lia|].
  rewrite length_app, Nat.add_1_r, unpack_be_snoc, Nat2Z.inj_succ, Z.pow_succ_r by lia.
  pose proof (Z_of_byte_range b). nia.
Qed.

Lemma take_is_pack (s : list byte) (k : nat) (z : Z) :
  length (take k s) = k -> unpack_be (take k s) = z -> take k s = pack_be k z.
Proof. intros Hlen <-. rewrite <- Hlen at 2. symmetry. apply pack_unpack_be. Qed.

Lemma Base_read_inv (tag : Tags) (type : Types) (s s' : BytearrayStream) (len : Z) :
  Base_read tag type s = (inr len, s') ->
  s = header_bytes tag type len ++ s' /\ (0 <= len < 2 ^ 32)%Z.
Proof.
  unfold Base_read, read_tag, read_type, read_length, bind, stream_read, raise, ret.
  repeat step_if.
  intros [= <- <-].
  repeat match goal with
         | H : (_ =? _)%nat = true |- _ => apply Nat.eqb_eq in H
         | H : (_ =? _)%Z = true |- _ => apply Z.eqb_eq in H
         end.
  split.
  - unfold header_bytes.
    rewrite <- (take_is_pack s TAG_SIZE (Tags_value tag)) by assumption.
    rewrite <- (take_is_pack (drop TAG_SIZE s) TYPE_SIZE (Types_value type)) by assumption.
    rewrite <- (take_is_pack (drop TYPE_SIZE (drop TAG_SIZE s)) LENGTH_SIZE _)
      by (assumption || reflexivity).
    rewrite <- !app_assoc, !take_drop. reflexivity.
  - match goal with
    | H : length (take LENGTH_SIZE ?t) = LENGTH_SIZE |- _ =>
        pose proof (unpack_be_range (take LENGTH_SIZE t)) as Hr; rewrite H in Hr
    end.
    change (256 ^ Z.of_nat LENGTH_SIZE)%Z with (2 ^ 32)%Z in Hr. exact Hr.
Qed.

Lemma length_string_of_list_byte (bs : list byte) :
  String.length (string_of_list_byte bs) = length bs.
Proof.
  rewrite <- length_list_byte_of_string, list_byte_of_string_of_list_byte. reflexivity.
Qed.

Lemma TextString_read_inv (self ts : TextString.t) (s s' : BytearrayStream) :
  TextString.read self s = (inr ts, s') ->
  s = TextString_bytes ts ++ s' /\ fits ts /\ TextString.tag ts = TextString.tag self.
Proof.
  unfold TextString.read, bind.
  destruct (Base_read _ _ s) as [[e|len] s1] eqn:E; [discriminate|].
  apply Base_read_inv in E as [-> Hlen].
  unfold stream_read. step_if. unfold ret. intros [= <- <-].
  match goal with H : (_ =? _)%nat = true |- _ => apply Nat.eqb_eq in H; rename H into Hl end.
  unfold TextString_bytes, fits. cbn [TextString.tag TextString.value].
  rewrite length_string_of_list_byte, Hl, Z2Nat.id by lia.
  rewrite list_byte_of_string_of_list_byte, <- app_assoc, take_drop.
  repeat split; lia.
Qed.

Lemma consumes_names_inv (s s2 : BytearrayStream) (names : list TextString.t) :
  consumes ATTRIBUTE_NAME name_reader s names s2 ->
  s = names_bytes names ++ s2
  /\ Forall fits names
  /\ Forall (fun ts => TextString.tag ts = ATTRIBUTE_NAME) names.
Proof.
  induction 1 as [s Hstop|s x s1 xs s2 Hnext Hrd Hc (IHs & IHf & IHt)].
  - repeat split; constructor.
  - apply TextString_read_inv in Hrd as (-> & Hf & Htag).
    rewrite names_bytes_cons, <- app_assoc, <- IHs.
    repeat split; constructor; assumption.
Qed.

Lemma consumes_uid_inv (s s1 : BytearrayStream) (u : option TextString.t) :
  consumes_uid s u s1 ->
  s = uid_bytes u ++ s1
  /\ match u with
     | Some ts => fits ts /\ TextString.tag ts = UNIQUE_IDENTIFIER
     | None => True
     end.
Proof.
  intros [t ts t1 Hnext Hrd|t Hnext].
  - apply TextString_read_inv in Hrd as (-> & Hf & Htag). auto.
  - auto.
Qed.

(** X9.  The wire form is canonical: when a request payload has been
    decoded from a stream that holds the whole declared length, encoding
    the decoded payload gives back, byte for byte, what decoding took off
    the stream. *)
Theorem request_decode_then_encode
        (p0 p' : Rq.t) (istream rest0 rest' : BytearrayStream) (len : Z) :
  Base_read REQUEST_PAYLOAD STRUCTURE istream = (inr len, rest0) ->
  (Z.to_nat len <= length rest0)%nat ->
  Rq.read (p0, istream) = (inr tt, (p', rest')) ->
  exists pw bytes,
    Rq.write (p', []) = (inr tt, (pw, bytes))
    /\ istream = bytes ++ rest'.
Proof.
  intros Hhdr Havail Hread.
  apply Rq_read_success in Hread
    as (len' & rest & u & s1 & names & Hhdr' & Hu & Hc & -> & ->).
  rewrite Hhdr in Hhdr'. injection Hhdr' as <- <-.
  apply Base_read_inv in Hhdr as [-> Hlen].
  apply consumes_uid_inv in Hu as [Hbody Hufits].
  apply consumes_names_inv in Hc as (-> & Hfits & Htags).
  rewrite app_nil_r in Hbody.
  assert (Hsize : stream_length (uid_bytes u ++ names_bytes names) = len).
  { rewrite <- Hbody. unfold stream_length. rewrite length_take_le by exact Havail. lia. }
  eexists. eexists. split.
  - apply Rq_write_run.
    + cbn [Rq._uid Rq_with Rq.set__uid Rq.set__attribute_names Rq.set_length].
      destruct u as [ts|]; [apply Hufits|exact I].
    + exact Hfits.
    + unfold Rq_body.
      cbn [Rq._uid Rq._attribute_names Rq_with Rq.set__uid Rq.set__attribute_names
           Rq.set_length].
      rewrite Hsize. lia.
  - rewrite app_nil_l. unfold frame, Rq_body.
    cbn [Rq._uid Rq._attribute_names Rq_with Rq.set__uid Rq.set__attribute_names
         Rq.set_length].
    rewrite Hsize, <- Hbody, <- app_assoc, take_drop. reflexivity.
Qed.

Lemma request_decode_then_encode_witness :
  exists pw bytes,
    Rq.write
      (Rq.set__attribute_names (name_scalars ["x-serial"; "x-serial"])
         (Rq_with 48 (Some sample_uid) Rq_new), [])
    = (inr tt, (pw, bytes))
    /\ frame REQUEST_PAYLOAD
         (TextString_bytes sample_uid
            ++ names_bytes (name_scalars ["x-serial"; "x-serial"]))
       ++ [x42; x00]
       = bytes ++ [x42; x00].
Proof.
  apply (request_decode_then_encode Rq_new _
           (frame REQUEST_PAYLOAD
              (TextString_bytes sample_uid
                 ++ names_bytes (name_scalars ["x-serial"; "x-serial"]))
            ++ [x42; x00])
           (TextString_bytes sample_uid
              ++ names_bytes (name_scalars ["x-serial"; "x-serial"]) ++ [x42; x00])
           [x42; x00] 48%Z).
  - reflexivity.
  - simpl. lia.
  - reflexivity.
Defined.

(** X10.  Decoding what a request payload encodes gives its scalars back
    exactly, whenever the scalars carry their tags: the same identifier
    and the same names in the same order, repeated names included.  This
    holds for every payload that setters or a decode have produced, not
    only for freshly built ones. *)
Theorem request_encode_then_decode
        (p pw p0 : Rq.t) (bytes rest : list byte) :
  Rq_tagged p ->
  Rq.write (p, []) = (inr tt, (pw, bytes)) ->
  exists p',
    Rq.read (p0, bytes ++ rest) = (inr tt, (p', rest))
    /\ Rq._uid p' = Rq._uid p
    /\ Rq._attribute_names p' = Rq._attribute_names p
    /\ Rq.length p' = Rq.length pw.
Proof.
  intros [Hutag Htags] Hw.
  apply Rq_write_inv in Hw as (_ & _ & Hlen & -> & ->).
  rewrite app_nil_l. unfold Rq_body in *.
  eexists. split; [apply Rq_read_frame; assumption|].
  repeat split.
Qed.

Lemma request_encode_then_decode_witness :
  exists p',
    Rq.read (Rq_new,
             snd (snd (Rq.write
                         (Rq.set__attribute_names
                            (name_scalars ["x-serial"; "x-serial"]) Rq_new, []))))
    = (inr tt, (p', []))
    /\ Rq._uid p' = None
    /\ Rq._attribute_names p' = name_scalars ["x-serial"; "x-serial"]
    /\ Rq.length p' = Some 32%Z.
Proof.
  pose proof (request_encode_then_decode
                (Rq.set__attribute_names (name_scalars ["x-serial"; "x-serial"]) Rq_new)
                (fst (snd (Rq.write
                             (Rq.set__attribute_names
                                (name_scalars ["x-serial"; "x-serial"]) Rq_new, []))))
                Rq_new
                (snd (snd (Rq.write
                             (Rq.set__attribute_names
                                (name_scalars ["x-serial"; "x-serial"]) Rq_new, []))))
                []) as H.
  rewrite app_nil_r in H. apply H.
  - split; [exact I|]. repeat constructor.
  - reflexivity.
Defined.

(** ** The tags of the stored scalars *)

Lemma Rq_read_tagged (self self' : Rq.t) (istream s' : BytearrayStream)
      (r : exception + unit) :
  Rq_tagged self -> Rq.read (self, istream) = (r, (self', s')) -> Rq_tagged self'.
Proof.
  intros [Hutag Htags] Hread.
  destruct (Base_read REQUEST_PAYLOAD STRUCTURE istream) as [[e|len] rest] eqn:Hhdr.
  { rewrite (Rq_read_header_error _ _ _ _ Hhdr) in Hread. injection Hread as _ <- _.
    split; assumption. }
  destruct (is_tag_next UNIQUE_IDENTIFIER (take (Z.to_nat len) rest)) eqn:Hnext.
  - destruct (TextString.read (TextString.__init__ None UNIQUE_IDENTIFIER)
                (take (Z.to_nat len) rest)) as [[e|u] s1] eqn:Hrd.
    + rewrite (Rq_read_uid_error _ _ _ _ _ _ Hhdr Hnext Hrd) in Hread.
      injection Hread as _ <- _. split; [reflexivity|exact Htags].
    + pose proof (TextString_read_consumes _ _ _ _ Hrd) as [_ Htag].
      rewrite (Rq_read_fields _ _ _ s1 _ (Some u) Hhdr
                 (consumes_uid_some _ _ _ Hnext Hrd)) in Hread.
      destruct (Rq.read_names (length s1) [] s1) as [[e|names] s2] eqn:Hloop.
      * injection Hread as _ <- _. split; [exact Htag|exact Htags].
      * injection Hread as _ <- _.
        apply read_names_inv in Hloop as (l & -> & Hc).
        apply consumes_names_inv in Hc as (_ & _ & Hl).
        split; [exact Htag|exact Hl].
  - rewrite (Rq_read_fields _ _ _ _ _ None Hhdr (consumes_uid_none _ Hnext)) in Hread.
    destruct (Rq.read_names _ [] _) as [[e|names] s2] eqn:Hloop.
    + injection Hread as _ <- _. split; [exact I|exact Htags].
    + injection Hread as _ <- _.
      apply read_names_inv in Hloop as (l & -> & Hc).
      apply consumes_names_inv in Hc as (_ & _ & Hl).
      split; [exact I|exact Hl].
Qed.

Lemma Rs_read_tagged `{AttributeCodec} (self self' : Rs.t) (istream s' : BytearrayStream)
      (r : exception + unit) :
  Rs_tagged self -> Rs.read (self, istream) = (r, (self', s')) -> Rs_tagged self'.
Proof.
  intros Htagged Hread.
  destruct (Base_read RESPONSE_PAYLOAD STRUCTURE istream) as [[e|len] rest] eqn:Hhdr.
  { rewrite (Rs_read_header_error _ _ _ _ Hhdr) in Hread. injection Hread as _ <- _.
    exact Htagged. }
  destruct (is_tag_next UNIQUE_IDENTIFIER (take (Z.to_nat len) rest)) eqn:Hnext.
  2: { rewrite (Rs_read_no_uid _ _ _ _ Hhdr Hnext) in Hread. injection Hread as _ <- _.
       exact Htagged. }
  destruct (TextString.read (TextString.__init__ None UNIQUE_IDENTIFIER)
              (take (Z.to_nat len) rest)) as [[e|u] s1] eqn:Hrd.
  { rewrite (Rs_read_uid_error _ _ _ _ _ _ Hhdr Hnext Hrd) in Hread.
    injection Hread as _ <- _. exact Htagged. }
  pose proof (TextString_read_consumes _ _ _ _ Hrd) as [_ Htag].
  rewrite (Rs_read_fields _ _ _ _ _ _ Hhdr Hnext Hrd) in Hread.
  destruct (Rs.read_attributes _ _ _) as [[e|s2] self''] eqn:Hloop;
    apply read_attributes_state in Hloop as [l ->];
    injection Hread as _ <- _; exact Htag.
Qed.

(** X8.  Every operation keeps the tags of the scalars a payload stores:
    the identifier carries the identifier tag and every name the
    attribute-name tag.  The constructors establish this, and the setters,
    [read] and [write] keep it, whether they return or raise. *)
Theorem stored_scalars_keep_their_tags `{AttributeCodec} :
  (forall (uid names : PyValue) (p : Rq.t),
      Rq.__init__ uid names = inr p -> Rq_tagged p)
  /\ (forall (uid attrs : PyValue) (p : Rs.t),
      Rs.__init__ uid attrs = inr p -> Rs_tagged p)
  /\ (forall (value : PyValue) (self self' : Rq.t) (r : exception + unit),
      Rq_tagged self ->
      Rq.uid_setter value self = (r, self')
      \/ Rq.attribute_names_setter value self = (r, self') ->
      Rq_tagged self')
  /\ (forall (value : PyValue) (self self' : Rs.t) (r : exception + unit),
      Rs_tagged self ->
      Rs.uid_setter value self = (r, self')
      \/ Rs.attributes_setter value self = (r, self') ->
      Rs_tagged self')
  /\ (forall (self self' : Rq.t) (s s' : BytearrayStream) (r : exception + unit),
      Rq_tagged self ->
      Rq.read (self, s) = (r, (self', s')) \/ Rq.write (self, s) = (r, (self', s')) ->
      Rq_tagged self')
  /\ (forall (self self' : Rs.t) (s s' : BytearrayStream) (r : exception + unit),
      Rs_tagged self ->
      Rs.read (self, s) = (r, (self', s')) \/ Rs.write (self, s) = (r, (self', s')) ->
      Rs_tagged self').
Proof.
  assert (Hq_uid : forall (value : PyValue) (self self' : Rq.t) (r : exception + unit),
             Rq_tagged self -> Rq.uid_setter value self = (r, self') -> Rq_tagged self').
  { intros value self self' r [Hu Hn] Hset.
    destruct value; unfold Rq.uid_setter, modify, raise in Hset;
      injection Hset as _ <-; split; try assumption; try reflexivity; exact I. }
  assert (Hq_names : forall (value : PyValue) (self self' : Rq.t) (r : exception + unit),
             Rq_tagged self -> Rq.attribute_names_setter value self = (r, self') ->
             Rq_tagged self').
  { intros value self self' r [Hu Hn] Hset.
    destruct value; unfold Rq.attribute_names_setter, modify, raise in Hset;
      try (injection Hset as _ <-; split; try assumption; constructor).
    destruct (Rq.collect_names l 0 []) as [e|names];
      injection Hset as _ <-; (split; [assumption|]); [assumption|].
    apply name_scalars_tagged. }
  assert (Hs_uid : forall (value : PyValue) (self self' : Rs.t) (r : exception + unit),
             Rs_tagged self -> Rs.uid_setter value self = (r, self') -> Rs_tagged self').
  { intros value self self' r Hu Hset.
    destruct value; unfold Rs.uid_setter, modify, raise in Hset;
      injection Hset as _ <-; try assumption; try reflexivity; exact I. }
  assert (Hs_attrs : forall (value : PyValue) (self self' : Rs.t) (r : exception + unit),
             Rs_tagged self -> Rs.attributes_setter value self = (r, self') ->
             Rs_tagged self').
  { intros value self self' r Hu Hset.
    destruct value; unfold Rs.attributes_setter, modify, raise in Hset;
      try (injection Hset as _ <-; assumption).
    destruct (Rs.check_attributes l 0) as [e|attrs];
      injection Hset as _ <-; assumption. }
  repeat apply conj.
  - intros uid names p. unfold Rq.__init__, bind.
    destruct (Rq.uid_setter uid _) as [[e|[]] self1] eqn:Hu; [discriminate|].
    destruct (Rq.attribute_names_setter names self1) as [[e|[]] self2] eqn:Hn;
      [discriminate|].
    intros [= <-]. eapply Hq_names; [|exact Hn]. eapply Hq_uid; [|exact Hu].
    split; [exact I|constructor].
  - intros uid attrs p. unfold Rs.__init__, bind.
    destruct (Rs.uid_setter uid _) as [[e|[]] self1] eqn:Hu; [discriminate|].
    destruct (Rs.attributes_setter attrs self1) as [[e|[]] self2] eqn:Hn;
      [discriminate|].
    intros [= <-]. eapply Hs_attrs; [|exact Hn]. eapply Hs_uid; [|exact Hu]. exact I.
  - intros value self self' r Htagged [Hset|Hset]; eauto.
  - intros value self self' r Htagged [Hset|Hset]; eauto.
  - intros self self' s s' r Htagged [Hread|Hwrite].
    + eapply Rq_read_tagged; eassumption.
    + apply Rq_write_state in Hwrite as [Hu Hn]. destruct Htagged as [Htu Htn].
      unfold Rq_tagged. rewrite Hu, Hn. split; assumption.
  - intros self self' s s' r Htagged [Hread|Hwrite].
    + eapply Rs_read_tagged; eassumption.
    + apply Rs_write_state in Hwrite as [Hu Hn].
      unfold Rs_tagged in *. rewrite Hu. exact Htagged.
Qed.

Lemma stored_scalars_keep_their_tags_witness :
  Rq_tagged (fst (snd (Rq.read (Rq_new, request_with_trailing_byte))))
  /\ Rs_tagged (fst (snd (Rs.read (H := TextAttributeCodec)
                            (Rs_new, response_with_trailing_byte)))).
Proof.
  destruct (@stored_scalars_keep_their_tags TextAttributeCodec)
    as (_ & _ & _ & _ & Hq & Hs).
  split.
  - apply (Hq Rq_new _ request_with_trailing_byte
              (snd (snd (Rq.read (Rq_new, request_with_trailing_byte))))
              (fst (Rq.read (Rq_new, request_with_trailing_byte)))).
    + split; [exact I|constructor].
    + left. reflexivity.
  - apply (Hs Rs_new _ response_with_trailing_byte
              (snd (snd (Rs.read (H := TextAttributeCodec)
                           (Rs_new, response_with_trailing_byte))))
              (fst (Rs.read (H := TextAttributeCodec)
                      (Rs_new, response_with_trailing_byte)))).
    + exact I.
    + left. reflexivity.
Defined.

(** ** The order of the fields, the declared length and the streams *)

Lemma TextString_bytes_not_nil (ts : TextString.t) : TextString_bytes ts <> [].
Proof.
  intros Hnil. apply (f_equal length) in Hnil.
  rewrite TextString_bytes_length in Hnil. discriminate Hnil.
Qed.

(** X11.  The identifier is accepted only as the first field of a request
    body.  An identifier field that comes after a name, or after another
    identifier, is not read: it is left over in the bounded stream and the
    decode fails with [InvalidKmipEncoding] ("oversized"). *)
Theorem request_identifier_only_first
        (self : Rq.t) (u : option TextString.t) (names : list TextString.t)
        (late : TextString.t) (rest : list byte) :
  match u with
  | Some ts => TextString.tag ts = UNIQUE_IDENTIFIER
  | None => names <> []
  end ->
  Forall (fun ts => TextString.tag ts = ATTRIBUTE_NAME) names ->
  TextString.tag late = UNIQUE_IDENTIFIER ->
  (stream_length (uid_bytes u ++ names_bytes names ++ TextString_bytes late) < 2 ^ 32)%Z ->
  fst (Rq.read (self,
                frame REQUEST_PAYLOAD
                  (uid_bytes u ++ names_bytes names ++ TextString_bytes late)
                ++ rest))
  = inl (InvalidKmipEncoding "oversized").
Proof.
  intros Hu Hnames Hlate Hlen.
  set (body := uid_bytes u ++ names_bytes names ++ TextString_bytes late) in *.
  assert (Hsize : (length (uid_bytes u) + (length (names_bytes names)
                   + length (TextString_bytes late)) = length body)%nat).
  { unfold body. rewrite !length_app. reflexivity. }
  unfold stream_length in Hlen.
  assert (Hfits : Forall fits names) by (eapply names_bytes_fits; [|exact Hlen]; lia).
  assert (Hall : Forall (fun ts => fits ts /\ TextString.tag ts = ATTRIBUTE_NAME) names).
  { apply Forall_and. split; assumption. }
  assert (Hstop : is_tag_next ATTRIBUTE_NAME (TextString_bytes late) = false).
  { rewrite <- (app_nil_r (TextString_bytes late)), TextString_bytes_tagged, Hlate.
    reflexivity. }
  pose proof (consumes_names_bytes names (TextString_bytes late) Hall Hstop) as Hc.
  assert (Hcu : consumes_uid body u (names_bytes names ++ TextString_bytes late)).
  { apply consumes_uid_bytes. destruct u as [ts|].
    - split; [|exact Hu]. eapply fits_of_length; [|exact Hlen].
      cbn [uid_bytes] in Hsize. lia.
    - destruct Hnames as [|n ns Hn _]; [contradiction|].
      rewrite names_bytes_cons, <- app_assoc, TextString_bytes_tagged, Hn. reflexivity. }
  assert (Hhdr : Base_read REQUEST_PAYLOAD STRUCTURE
                   (header_bytes REQUEST_PAYLOAD STRUCTURE (stream_length body)
                      ++ body ++ rest)
                 = (inr (stream_length body), body ++ rest)).
  { apply Base_read_header. unfold stream_length. lia. }
  assert (Htake : take (Z.to_nat (stream_length body)) (body ++ rest) = body).
  { unfold stream_length. rewrite Nat2Z.id. apply take_app_length. }
  rewrite <- Htake in Hcu.
  pose proof (Rq_read_consumed self _ _ _ _ _ u names Hhdr Hcu Hc) as Hread.
  apply (f_equal fst) in Hread. cbn [fst] in Hread.
  unfold frame. rewrite <- app_assoc. etransitivity; [exact Hread|].
  destruct (TextString_bytes late) eqn:Hbytes; [|reflexivity].
  exfalso. apply (TextString_bytes_not_nil late). exact Hbytes.
Qed.

Lemma request_identifier_only_first_witness :
  fst (Rq.read (Rq_new,
                frame REQUEST_PAYLOAD
                  (uid_bytes None ++ names_bytes (name_scalars ["x-serial"])
                     ++ TextString_bytes sample_uid)
                ++ []))
  = inl (InvalidKmipEncoding "oversized").
Proof.
  apply (request_identifier_only_first Rq_new None (name_scalars ["x-serial"])
           sample_uid []).
  - discriminate.
  - repeat constructor.
  - reflexivity.
  - reflexivity.
Defined.

Lemma Base_write_appends (tag : Tags) (type : Types) (len : Z) (s s' : BytearrayStream)
      (r : exception + unit) :
  Base_write tag type len s = (r, s') -> exists tail, s' = s ++ tail.
Proof.
  unfold Base_write, write_tag, write_type, write_length, bind, stream_write, raise.
  destruct ((0 <=? len)%Z && (len <? 2 ^ 32)%Z); intros [= _ <-];
    rewrite <- ?app_assoc; eexists; reflexivity.
Qed.

(** X12.  Length accounting of [write], for both classes.  A [write]
    that returns has stored in [length] the number of bytes of the body
    and has appended to the output stream the eight header bytes, which
    declare that length, and then the body; whether it returns or raises,
    it only appends: what the stream held before is still there, in
    front. *)
Theorem write_declares_body_length `{AttributeCodec} :
  (forall (self self' : Rq.t) (ostream ostream' : BytearrayStream),
      Rq.write (self, ostream) = (inr tt, (self', ostream')) ->
      exists n body,
        Rq.length self' = Some n
        /\ n = Z.of_nat (length body) /\ (n < 2 ^ 32)%Z
        /\ ostream' = ostream ++ header_bytes REQUEST_PAYLOAD STRUCTURE n ++ body
        /\ Base_read REQUEST_PAYLOAD STRUCTURE
             (header_bytes REQUEST_PAYLOAD STRUCTURE n ++ body) = (inr n, body))
  /\ (forall (self self' : Rs.t) (ostream ostream' : BytearrayStream),
      Rs.write (self, ostream) = (inr tt, (self', ostream')) ->
      exists n body,
        Rs.length self' = Some n
        /\ n = Z.of_nat (length body) /\ (n < 2 ^ 32)%Z
        /\ ostream' = ostream ++ header_bytes RESPONSE_PAYLOAD STRUCTURE n ++ body
        /\ Base_read RESPONSE_PAYLOAD STRUCTURE
             (header_bytes RESPONSE_PAYLOAD STRUCTURE n ++ body) = (inr n, body))
  /\ (forall (self self' : Rq.t) (ostream ostream' : BytearrayStream)
             (r : exception + unit),
      Rq.write (self, ostream) = (r, (self', ostream')) ->
      exists tail, ostream' = ostream ++ tail)
  /\ (forall (self self' : Rs.t) (ostream ostream' : BytearrayStream)
             (r : exception + unit),
      Rs.write (self, ostream) = (r, (self', ostream')) ->
      exists tail, ostream' = ostream ++ tail).
Proof.
  repeat apply conj.
  - intros self self' ostream ostream' Hw.
    apply Rq_write_inv in Hw as (_ & _ & Hlen & -> & ->).
    exists (stream_length (Rq_body self)), (Rq_body self).
    repeat split; try assumption.
    apply Base_read_header. unfold stream_length in *. lia.
  - intros self self' ostream ostream' Hw.
    apply Rs_write_inv in Hw as (u & bs & _ & _ & _ & Hlen & -> & ->).
    exists (stream_length (TextString_bytes u ++ bs)), (TextString_bytes u ++ bs).
    repeat split; try assumption.
    apply Base_read_header. unfold stream_length in *. lia.
  - intros self self' ostream ostream' r.
    unfold Rq.write. unfold bind at 1 2. unfold on_self at 1, get, run_on. cbn [fst snd].
    match goal with
    | |- context [bind ?a ?b []] => destruct (bind a b []) as [[e|[]] body]
    end.
    + intros [= _ _ <-]. exists []. rewrite app_nil_r. reflexivity.
    + unfold bind, on_self, on_stream, modify. cbn [fst snd].
      destruct (Base_write _ _ _ ostream) as [[e|[]] s3] eqn:Hb;
        apply Base_write_appends in Hb as [tail ->].
      * intros [= _ _ <-]. eexists. reflexivity.
      * unfold stream_write. intros [= _ _ <-]. rewrite <- app_assoc.
        eexists. reflexivity.
  - intros self self' ostream ostream' r.
    unfold Rs.write. unfold bind at 1 2. unfold on_self at 1, get, run_on. cbn [fst snd].
    match goal with
    | |- context [bind ?a ?b []] => destruct (bind a b []) as [[e|[]] body]
    end.
    + intros [= _ _ <-]. exists []. rewrite app_nil_r. reflexivity.
    + unfold bind, on_self, on_stream, modify. cbn [fst snd].
      destruct (Base_write _ _ _ ostream) as [[e|[]] s3] eqn:Hb;
        apply Base_write_appends in Hb as [tail ->].
      * intros [= _ _ <-]. eexists. reflexivity.
      * unfold stream_write. intros [= _ _ <-]. rewrite <- app_assoc.
        eexists. reflexivity.
Qed.

Lemma write_declares_body_length_witness :
  (exists n body,
      Rq.length
        (fst (snd (Rq.write
                     (Rq.set__attribute_names (name_scalars ["x-serial"]) Rq_new,
                      [x01; x02]))))
      = Some n
      /\ n = Z.of_nat (length body) /\ (n < 2 ^ 32)%Z
      /\ snd (snd (Rq.write
                     (Rq.set__attribute_names (name_scalars ["x-serial"]) Rq_new,
                      [x01; x02])))
         = [x01; x02] ++ header_bytes REQUEST_PAYLOAD STRUCTURE n ++ body
      /\ Base_read REQUEST_PAYLOAD STRUCTURE
           (header_bytes REQUEST_PAYLOAD STRUCTURE n ++ body) = (inr n, body))
  /\ exists tail,
       snd (snd (Rs.write (H := TextAttributeCodec) (Rs_new, [x01; x02])))
       = [x01; x02] ++ tail.
Proof.
  destruct (@write_declares_body_length TextAttributeCodec) as (Hq & _ & _ & Hs).
  split.
  - apply (Hq (Rq.set__attribute_names (name_scalars ["x-serial"]) Rq_new)).
    reflexivity.
  - apply (Hs Rs_new
              (fst (snd (Rs.write (H := TextAttributeCodec) (Rs_new, [x01; x02]))))
              [x01; x02] _
              (fst (Rs.write (H := TextAttributeCodec) (Rs_new, [x01; x02])))).
    reflexivity.
Defined.

(** X13.  Decoding is bounded by the declared length.  When the stream
    holds the header and the whole declared length, what follows them
    changes nothing: the outcome and the decoded payload are those of the
    stream that ends with the body, and what follows is left in the input
    stream, whether the decode returns or raises. *)
Theorem read_is_bounded_by_declared_length `{AttributeCodec} :
  (forall (self : Rq.t) (len : Z) (body rest : list byte),
      (0 <= len < 2 ^ 32)%Z -> length body = Z.to_nat len ->
      Rq.read (self, header_bytes REQUEST_PAYLOAD STRUCTURE len ++ body ++ rest)
      = (fst (Rq.read (self, header_bytes REQUEST_PAYLOAD STRUCTURE len ++ body)),
         (fst (snd (Rq.read (self, header_bytes REQUEST_PAYLOAD STRUCTURE len ++ body))),
          rest)))
  /\ (forall (self : Rs.t) (len : Z) (body rest : list byte),
      (0 <= len < 2 ^ 32)%Z -> length body = Z.to_nat len ->
      Rs.read (self, header_bytes RESPONSE_PAYLOAD STRUCTURE len ++ body ++ rest)
      = (fst (Rs.read (self, header_bytes RESPONSE_PAYLOAD STRUCTURE len ++ body)),
         (fst (snd (Rs.read (self, header_bytes RESPONSE_PAYLOAD STRUCTURE len ++ body))),
          rest))).
Proof.
  split.
  - intros self len body rest Hlen Hbody.
    pose proof (Base_read_header REQUEST_PAYLOAD STRUCTURE len (body ++ rest) Hlen) as H1.
    pose proof (Base_read_header REQUEST_PAYLOAD STRUCTURE len body Hlen) as H2.
    unfold Rq.read, bind, on_stream, on_self, run_on, modify, stream_read, ret.
    cbn [fst snd]. rewrite H1, H2. cbn [fst snd].
    rewrite (take_app_length' body rest) by (symmetry; exact Hbody).
    rewrite (drop_app_length' body rest) by (symmetry; exact Hbody).
    rewrite (take_ge body) by lia. rewrite (drop_ge body) by lia.
    destruct (is_tag_next UNIQUE_IDENTIFIER body).
    + destruct (TextString.read _ body) as [[e|u] s1]; [reflexivity|].
      cbn [fst snd].
      destruct (Rq.read_names _ _ s1) as [[e|names] s2]; [reflexivity|].
      unfold is_oversized. cbn [fst snd]. destruct (0 <? length s2)%nat; reflexivity.
    + cbn [fst snd].
      destruct (Rq.read_names _ _ body) as [[e|names] s2]; [reflexivity|].
      unfold is_oversized. cbn [fst snd]. destruct (0 <? length s2)%nat; reflexivity.
  - intros self len body rest Hlen Hbody.
    pose proof (Base_read_header RESPONSE_PAYLOAD STRUCTURE len (body ++ rest) Hlen) as H1.
    pose proof (Base_read_header RESPONSE_PAYLOAD STRUCTURE len body Hlen) as H2.
    unfold Rs.read, bind, on_stream, on_self, run_on, modify, stream_read, ret, raise.
    cbn [fst snd]. rewrite H1, H2. cbn [fst snd].
    rewrite (take_app_length' body rest) by (symmetry; exact Hbody).
    rewrite (drop_app_length' body rest) by (symmetry; exact Hbody).
    rewrite (take_ge body) by lia. rewrite (drop_ge body) by lia.
    destruct (is_tag_next UNIQUE_IDENTIFIER body); [|reflexivity].
    destruct (TextString.read _ body) as [[e|u] s1]; [reflexivity|].
    cbn [fst snd].
    destruct (Rs.uid_setter _ _) as [[e|[]] self1]; [reflexivity|].
    cbn [fst snd].
    destruct (Rs.read_attributes _ _ _) as [[e|s2] self2]; [reflexivity|].
    unfold is_oversized. cbn [fst snd]. destruct (0 <? length s2)%nat; reflexivity.
Qed.

Lemma read_is_bounded_by_declared_length_witness :
  Rq.read (Rq_new,
           header_bytes REQUEST_PAYLOAD STRUCTURE 16
             ++ TextString_bytes sample_uid ++ [x42; x00; x0a])
  = (inr tt, (Rq_with 16 (Some sample_uid) Rq_new, [x42; x00; x0a]))
  /\ Rs.read (H := TextAttributeCodec)
       (Rs_new,
        header_bytes RESPONSE_PAYLOAD STRUCTURE 16
          ++ TextString_bytes sample_uid ++ [x42; x00; x08])
     = (inr tt, (Rs_with 16 (Some sample_uid) Rs_new, [x42; x00; x08])).
Proof.
  destruct (@read_is_bounded_by_declared_length TextAttributeCodec) as [Hq Hs].
  split.
  - apply (Hq Rq_new 16%Z (TextString_bytes sample_uid) [x42; x00; x0a]);
      [lia|reflexivity].
  - apply (Hs Rs_new 16%Z (TextString_bytes sample_uid) [x42; x00; x08]);
      [lia|reflexivity].
Defined.

(** ** The response payload: round trip and early failures *)

Lemma Rs_eq_pairwise `{AttributeCodec} (p q : Rs.t) :
  Rs.uid p = Rs.uid q ->
  Forall2 (fun a b => Attribute_eq a b = true) (Rs._attributes p) (Rs._attributes q) ->
  Rs.__eq__ p q = true.
Proof.
  intros Hu Hall. unfold Rs.__eq__.
  rewrite (bool_decide_eq_true_2 _ Hu). cbn [negb].
  rewrite (Forall2_length _ _ _ Hall), Nat.eqb_refl. cbn [negb].
  rewrite (attributes_differ_equal _ _ Hall). reflexivity.
Qed.

(** X14.  Decoding what a response payload encodes gives its identifier
    back exactly and, in the same number and order, attributes equal to
    those it holds, so that the decoded payload is equal to it; this holds
    for every response payload whose identifier carries its tag, over any
    attribute codec that reads back what it writes. *)
Theorem response_encode_then_decode `{AC : AttributeCodec} (L : AttributeCodecLaws)
        (p pw p0 : Rs.t) (bytes rest : list byte) :
  Rs_tagged p ->
  Rs.write (p, []) = (inr tt, (pw, bytes)) ->
  exists p',
    Rs.read (p0, bytes ++ rest) = (inr tt, (p', rest))
    /\ Rs._uid p' = Rs._uid p
    /\ Forall2 (fun a' a => Attribute_eq a' a = true) (Rs.attributes p') (Rs.attributes p)
    /\ Rs.__eq__ p' p = true
    /\ Rs.length p' = Rs.length pw.
Proof.
  intros Htagged Hw.
  apply Rs_write_inv in Hw as (u & bs & Hu & _ & Hbs & Hlen & -> & ->).
  unfold Rs_tagged in Htagged. rewrite Hu in Htagged.
  rewrite app_nil_l.
  destruct (Rs_read_frame L p0 u (Rs._attributes p) bs rest Htagged Hbs Hlen)
    as (attrs' & Hall & Hread).
  eexists. split; [exact Hread|].
  split; [symmetry; exact Hu|]. split; [exact Hall|]. split; [|reflexivity].
  apply Rs_eq_pairwise; [|exact Hall].
  unfold Rs.uid. cbn [Rs._uid Rs.set__attributes Rs_with Rs.set__uid Rs.set_length].
  rewrite Hu. reflexivity.
Qed.

Lemma response_encode_then_decode_witness :
  exists p',
    Rs.read (H := TextAttributeCodec)
      (Rs_new,
       snd (snd (Rs.write
                   (Rs.set__attributes [attribute_two; attribute_two]
                      (Rs.set__uid (Some sample_uid) Rs_new), [])))
         ++ [x00])
    = (inr tt, (p', [x00]))
    /\ Rs._uid p' = Some sample_uid
    /\ Forall2 (fun a' a => Attribute_eq a' a = true)
         (Rs.attributes p') [attribute_two; attribute_two]
    /\ Rs.__eq__ p'
         (Rs.set__attributes [attribute_two; attribute_two]
            (Rs.set__uid (Some sample_uid) Rs_new)) = true
    /\ Rs.length p' = Some 76%Z.
Proof.
  apply (response_encode_then_decode TextAttributeCodec_laws
           (Rs.set__attributes [attribute_two; attribute_two]
              (Rs.set__uid (Some sample_uid) Rs_new))
           (fst (snd (Rs.write
                        (Rs.set__attributes [attribute_two; attribute_two]
                           (Rs.set__uid (Some sample_uid) Rs_new), []))))
           Rs_new).
  - reflexivity.
  - reflexivity.
Defined.

(** X15.  A decode that raises while it reads the header leaves the
    payload exactly as it was, for both classes.  A response decode that
    raises while it reads the identifier has stored the declared length
    and nothing else: the identifier and the attributes are as they
    were. *)
Theorem early_read_failure_leaves_fields `{AttributeCodec} :
  (forall (self : Rq.t) (istream s' : BytearrayStream) (e : exception),
      Base_read REQUEST_PAYLOAD STRUCTURE istream = (inl e, s') ->
      Rq.read (self, istream) = (inl e, (self, s')))
  /\ (forall (self : Rs.t) (istream s' : BytearrayStream) (e : exception),
      Base_read RESPONSE_PAYLOAD STRUCTURE istream = (inl e, s') ->
      Rs.read (self, istream) = (inl e, (self, s')))
  /\ (forall (self : Rs.t) (istream rest s1 : BytearrayStream) (len : Z) (e : exception),
      Base_read RESPONSE_PAYLOAD STRUCTURE istream = (inr len, rest) ->
      is_tag_next UNIQUE_IDENTIFIER (take (Z.to_nat len) rest) = true ->
      TextString.read (TextString.__init__ None UNIQUE_IDENTIFIER)
        (take (Z.to_nat len) rest) = (inl e, s1) ->
      exists self' istream',
        Rs.read (self, istream) = (inl e, (self', istream'))
        /\ Rs.uid self' = Rs.uid self
        /\ Rs.attributes self' = Rs.attributes self
        /\ Rs.length self' = Some len).
Proof.
  split; [|split].
  - intros self istream s' e Hhdr. apply Rq_read_header_error, Hhdr.
  - intros self istream s' e Hhdr. apply Rs_read_header_error, Hhdr.
  - intros self istream rest s1 len e Hhdr Hnext Hrd.
    rewrite (Rs_read_uid_error _ _ _ _ _ _ Hhdr Hnext Hrd).
    eexists. eexists. split; [reflexivity|]. repeat split.
Qed.

Lemma early_read_failure_leaves_fields_witness :
  Rq.read (Rq.set__attribute_names (name_scalars ["x-serial"]) Rq_new,
           [x42; x00; x79; x01; x00])
  = (inl (CodecError "length: truncated"),
     (Rq.set__attribute_names (name_scalars ["x-serial"]) Rq_new, []))
  /\ exists self' istream',
       Rs.read (H := TextAttributeCodec)
         (Rs.set__attributes [attribute_one] Rs_new,
          header_bytes RESPONSE_PAYLOAD STRUCTURE 8 ++ [x42; x00; x94; x07; x00; x00; x00; x08])
       = (inl (CodecError "value: truncated"), (self', istream'))
       /\ Rs.uid self' = None
       /\ Rs.attributes self' = [attribute_one]
       /\ Rs.length self' = Some 8%Z.
Proof.
  destruct (@early_read_failure_leaves_fields TextAttributeCodec) as (Hq & _ & Hs).
  split.
  - apply Hq. reflexivity.
  - apply (Hs (Rs.set__attributes [attribute_one] Rs_new)
              (header_bytes RESPONSE_PAYLOAD STRUCTURE 8
                 ++ [x42; x00; x94; x07; x00; x00; x00; x08])
              [x42; x00; x94; x07; x00; x00; x00; x08] [] 8%Z
              (CodecError "value: truncated")); reflexivity.
Defined.
